(** * Arma3-Utils: mod size report and unused-mod finder

    A shallow embedding of [src/unusedmods.py] and [src/modpacksize.py].

    Both scripts parse a launcher export (HTML) with BeautifulSoup, read the
    display names of the mods it lists, ask the Windows scripting API for the
    size of each mod folder and print a table.  The embedding keeps the
    source's names; strings are UTF-8 byte strings.

    Left to their libraries, and not modelled: argument parsing, reading
    and parsing the files (the programs start from the parsed trees), the
    progress bar, and the rendering of the table. *)

From Stdlib Require Import ZArith QArith Ascii String.
From stdpp Require Import base decidable option list strings gmap.

Open Scope Z_scope.
Open Scope string_scope.
Open Scope list_scope.

(** ** Exceptions

    Only two exception classes matter to the code: [KeyError], raised by a
    missing attribute in [tag[key]], and pywin32's [com_error], raised by
    [GetFolder] on a path that is no folder. *)

Inductive exn : Type :=
  | KeyError (key : string)
  | com_error (path : string).

Inductive result (A : Type) : Type :=
  | Ok (a : A)
  | Raise (e : exn).

Arguments Ok {A} a.
Arguments Raise {A} e.

#[global] Instance result_ret : MRet result := fun A a => Ok a.

#[global] Instance result_bind : MBind result := fun A B k r =>
  match r with
  | Ok a => k a
  | Raise e => Raise e
  end.

(** [try: body except KeyError: handler] *)
Definition except_KeyError {A} (body : result A) (handler : result A) : result A :=
  match body with
  | Raise (KeyError _) => handler
  | other => other
  end.

(** ** The parsed document (BeautifulSoup's tree)

    A [Tag] has a name, an attribute dictionary and its children, which are
    text nodes or tags.  The [BeautifulSoup] object at the root is itself a
    tag, named [[document]], with no attribute. *)

Inductive PageElement (T : Type) : Type :=
  | NavigableString (s : string)
  | Child (t : T).

Arguments NavigableString {T} s.
Arguments Child {T} t.

#[warnings="-register-all"] Inductive Tag : Type :=
  | mkTag (name : string) (attrs : gmap string string)
          (contents : list (PageElement Tag)).

Definition name (t : Tag) : string := let 'mkTag n _ _ := t in n.
Definition attrs (t : Tag) : gmap string string := let 'mkTag _ a _ := t in a.
Definition contents (t : Tag) : list (PageElement Tag) := let 'mkTag _ _ c := t in c.

Definition BeautifulSoup (contents : list (PageElement Tag)) : Tag :=
  mkTag "[document]" ∅ contents.

(** [tag[key]] *)
Definition getitem (t : Tag) (key : string) : result string :=
  match attrs t !! key with
  | Some v => Ok v
  | None => Raise (KeyError key)
  end.

(** [tag.text]: every string below the tag, concatenated in document order. *)
Fixpoint text (t : Tag) : string :=
  match t with
  | mkTag _ _ cs =>
      (fix strings (cs : list (PageElement Tag)) : string :=
         match cs with
         | [] => ""
         | NavigableString s :: cs' => s +:+ strings cs'
         | Child c :: cs' => text c +:+ strings cs'
         end) cs
  end.

(** What [find_all] yields: a tag, with the [.parent] it hangs from. *)
Record element : Type := Element { parent : Tag; self : Tag }.

(** [soup.find_all(name)]: the descendants of [soup] with that tag name, in
    document (pre-)order. *)
Fixpoint find_all (t : Tag) (nm : string) : list element :=
  (fix below (cs : list (PageElement Tag)) : list element :=
     match cs with
     | [] => []
     | NavigableString _ :: cs' => below cs'
     | Child c :: cs' =>
         (if decide (name c = nm) then [Element t c] else [])
           ++ find_all c nm ++ below cs'
     end) (contents t).

(** Every tag of a document: the root and its descendants, in pre-order. *)
Fixpoint tags (t : Tag) : list Tag :=
  t :: (fix below (cs : list (PageElement Tag)) : list Tag :=
          match cs with
          | [] => []
          | NavigableString _ :: cs' => below cs'
          | Child c :: cs' => tags c ++ below cs'
          end) (contents t).

(** ** [_get_mod_names] (both files, lines 60-71) *)

(** One turn of [for td in soup.find_all("td")]. *)
Definition _get_mod_names_body (td : element) (mod_names : list string)
  : result (list string) :=
  p ← getitem (parent td) "data-type";
  if decide (p = "ModContainer") then
    except_KeyError
      (d ← getitem (self td) "data-type";
       if decide (d = "DisplayName")
       then Ok (mod_names ++ [text (self td)])
       else Ok mod_names)
      (Ok mod_names)
  else Ok mod_names.

Fixpoint _get_mod_names_loop (tds : list element) (mod_names : list string)
  : result (list string) :=
  match tds with
  | [] => Ok mod_names
  | td :: tds' =>
      mod_names' ← _get_mod_names_body td mod_names;
      _get_mod_names_loop tds' mod_names'
  end.

Definition _get_mod_names (soup : Tag) : result (list string) :=
  _get_mod_names_loop (find_all soup "td") [].

(** ** Numbers

    Sizes are Python floats.  The code only divides, rounds and sums them, so
    the embedding is generic in these operations: whatever binary64 does, the
    statements below hold. *)

Class FloatOps (F : Type) : Type := {
  float_of_Z : Z -> F;        (* a literal such as [1024.0] *)
  fdiv : F -> F -> F;         (* [x / y] *)
  fround : F -> Z -> F;       (* [round(x, ndigits)] *)
  fsum : list F -> F          (* [sum(xs)] *)
}.

(** ** Strings: [str.replace] and [os.path.join] *)

(** [s.replace(old, new)] for one-character [old] and [new]. *)
Fixpoint replace (old new : ascii) (s : string) : string :=
  match s with
  | EmptyString => EmptyString
  | String c s' =>
      String (if Ascii.eqb c old then new else c) (replace old new s')
  end.

(** Lines 79-80 of [unusedmods.py] (113-114 of [modpacksize.py]): the two
    rebindings of [mod_name] in the [except] branch. *)
Definition sanitize (mod_name : string) : string :=
  let mod_name := replace ":"%char "-"%char mod_name in
  let mod_name := replace "/"%char "-"%char mod_name in
  mod_name.

(** ** The store and the file system

    A list object lives in the heap and is passed by reference.  [queries]
    records, in order, every path [GetFolder] was asked for. *)

Definition loc : Type := nat.

Record state : Type := State {
  heap : gmap loc (list string);
  queries : list string
}.

Definition M (A : Type) : Type := state -> result A * state.

#[global] Instance M_ret : MRet M := fun A a σ => (Ok a, σ).

#[global] Instance M_bind : MBind M := fun A B k m σ =>
  match m σ with
  | (Ok a, σ') => k a σ'
  | (Raise e, σ') => (Raise e, σ')
  end.

(** A computation without effect on the store. *)
Definition lift {A} (r : result A) : M A := fun σ => (r, σ).

(** [try: body except com_error: handler] *)
Definition except_com_error {A} (body handler : M A) : M A := fun σ =>
  match body σ with
  | (Raise (com_error _), σ') => handler σ'
  | other => other
  end.

(** A new list object. *)
Definition alloc (v : list string) : M loc := fun σ =>
  let l := fresh (dom (heap σ)) in
  (Ok l, State (<[l := v]> (heap σ)) (queries σ)).

(** The current contents of a list object. *)
Definition deref (l : loc) : M (list string) := fun σ =>
  (Ok (default [] (heap σ !! l)), σ).

Definition initial : state := State ∅ [].

(** The printed report: the header's two totals and the table's rows
    (number, name, size).  Rendering to text is left to [rich]. *)
Record report (F : Type) : Type := Report {
  total_size_mb : F;
  total_size_gb : F;
  table : list (Z * string * F)
}.

Arguments Report {F} _ _ _.
Arguments total_size_mb {F} _.
Arguments total_size_gb {F} _.
Arguments table {F} _.

(** ** What the export schema calls things *)

(** The type tag of an element: its [data-type] attribute, if any. *)
Definition type_tag (t : Tag) : option string := attrs t !! "data-type".

(** A display-name cell of a mod row. *)
Definition is_display_name (td : element) : Prop :=
  type_tag (parent td) = Some "ModContainer"
  ∧ type_tag (self td) = Some "DisplayName".

#[global] Instance is_display_name_dec td : Decision (is_display_name td).
Proof. unfold is_display_name. apply _. Defined.

(** The texts of the display-name cells of mod rows, in document order. *)
Definition display_names (soup : Tag) : list string :=
  (fun td => text (self td)) <$> filter is_display_name (find_all soup "td").

(** Every cell hangs from an element that carries a type tag. *)
Definition parents_tagged (soup : Tag) : Prop :=
  Forall (fun td => is_Some (type_tag (parent td))) (find_all soup "td").

(** The document has no element tagged [ModContainer]. *)
Definition no_mod_container (soup : Tag) : Prop :=
  Forall (fun t => type_tag t ≠ Some "ModContainer") (tags soup).

(** The cells [find_all] yields under the children [cs] of [p]: what its
    inner loop computes. *)
Fixpoint below (p : Tag) (nm : string) (cs : list (PageElement Tag))
  : list element :=
  match cs with
  | [] => []
  | NavigableString _ :: cs' => below p nm cs'
  | Child c :: cs' =>
      (if decide (name c = nm) then [Element p c] else [])
        ++ find_all c nm ++ below p nm cs'
  end.

(** ** An exact instance, for examples

    Rational numbers, with [round] to the nearest multiple of [10^-ndigits],
    ties to even.  Binary floats agree with it up to their rounding error. *)

Definition Qround (x : Q) (ndigits : Z) : Q :=
  let s := 10 ^ ndigits in
  let n := Qnum x * s in
  let d := Zpos (Qden x) in
  let q := n / d in
  let r := n mod d in
  let up := Z.ltb d (2 * r) || (Z.eqb d (2 * r) && Z.odd q) in
  Qred (Qmake (if up then q + 1 else q) (Z.to_pos s)).

#[global] Instance Q_FloatOps : FloatOps Q := {
  float_of_Z := inject_Z;
  fdiv x y := Qred (x / y);
  fround := Qround;
  fsum xs := Qred (fold_left Qplus xs 0%Q)
}.

(** Windows' way of joining, for components that introduce no drive or
    root of their own. *)
Definition ntpath_join (a b c : string) : string :=
  a +:+ "\" +:+ b +:+ "\" +:+ c.

(** ** Example documents and folders *)

Definition td (attrs : gmap string string) (s : string) : PageElement Tag :=
  Child (mkTag "td" attrs [NavigableString s]).

Definition tr (attrs : gmap string string) (cells : list (PageElement Tag))
  : PageElement Tag :=
  Child (mkTag "tr" attrs cells).

Definition table_ (rows : list (PageElement Tag)) : PageElement Tag :=
  Child (mkTag "table" ∅ rows).

Definition mod_row (display_name : string) : PageElement Tag :=
  tr {[ "data-type" := "ModContainer" ]}
     [ td {[ "data-type" := "DisplayName" ]} display_name;
       td ∅ "Steam" ].

Definition dlc_row (display_name : string) : PageElement Tag :=
  tr {[ "data-type" := "DlcContainer" ]}
     [ td {[ "data-type" := "DisplayName" ]} display_name ].

Definition export (display_names : list string) : Tag :=
  BeautifulSoup [ table_ (mod_row <$> display_names);
                  table_ [ dlc_row "Contact" ] ].

(** A row without a type tag around a display-name cell. *)
Definition untagged_row_export : Tag :=
  BeautifulSoup
    [ table_ [ tr ∅ [ td {[ "data-type" := "DisplayName" ]} "Alpha" ] ] ].

(** A cell directly under the document, which has no mod row at all. *)
Definition bare_cell_export : Tag :=
  BeautifulSoup [ td ∅ "x" ].

(** A mod row followed by a row that lost its type tag. *)
Definition stray_cell : Tag := mkTag "td" ∅ [NavigableString "x"].
Definition stray_row : Tag := mkTag "tr" ∅ [Child stray_cell].
Definition stray_row_export : Tag :=
  BeautifulSoup [ table_ [ mod_row "Alpha"; Child stray_row ] ].

(** Only DLC rows. *)
Definition dlc_export : Tag :=
  BeautifulSoup [ table_ [ dlc_row "Contact"; dlc_row "Apex" ] ].

Definition arma_root_ex : string := "C:\Arma 3".

(** [@Alpha] is 10 MB, [@CBA_A3] 250 MB, [@RHS- Escalation] 5 MB. *)
Definition folders_ex (path : string) : option Q :=
  if decide (path = "C:\Arma 3\!Workshop\@Alpha") then Some (10485760 # 1)%Q
  else if decide (path = "C:\Arma 3\!Workshop\@CBA_A3") then Some (262144000 # 1)%Q
  else if decide (path = "C:\Arma 3\!Workshop\@RHS- Escalation") then Some (5242880 # 1)%Q
  else None.

(** The state after a program has put its names in a new list object. *)
Definition with_names (σ : state) (names : list string) : state :=
  State (<[fresh (dom (heap σ)) := names]> (heap σ)) (queries σ).

(** The names a table shows. *)
Definition shown_names {F} (rep : report F) : list string :=
  (fun row => row.1.2) <$> table rep.

(** The set of active mods: the union of what the active exports list. *)
Definition ActiveModSet (extracted : list (list string)) : gset string :=
  ⋃ (list_to_set <$> extracted).

Section Programs.

Context {F : Type} `{FloatOps F}.

(** [Scripting.FileSystemObject]: [GetFolder(path).Size], in bytes, or
    nothing when [path] is no folder ([GetFolder] raises [com_error]). *)
Variable GetFolder : string -> option F.

(** [os.path.join] of three components. *)
Variable os_path_join : string -> string -> string -> string.

(** *** [_get_dir_size] (lines 52-58) *)
Definition _get_dir_size (dir_path : string) : M F := fun σ =>
  let σ' := State (heap σ) (queries σ ++ [dir_path]) in
  match GetFolder dir_path with
  | Some size => (Ok (fdiv size (float_of_Z (1024 ^ 2))), σ') (* [1024.0 ** 2] *)
  | None => (Raise (com_error dir_path), σ')
  end.

(** *** [for x in xs: body], [xs] a list object

    Python's list iterator keeps an index and reads the live list at every
    turn; it stops when the index is past the end.  [n] bounds the number
    of turns. *)
Fixpoint for_in {A} (n : nat) (xs : loc) (i : nat)
    (body : string -> A -> M A) (acc : A) : M A :=
  match n with
  | O => mret acc
  | S n' =>
      l ← deref xs;
      match l !! i with
      | None => mret acc
      | Some x => acc' ← body x acc; for_in n' xs (S i) body acc'
      end
  end.

(** *** The body of the size loop ([unusedmods.py] 76-83,
    [modpacksize.py] 110-117) *)
Definition mod_size_body (arma_root mod_name : string) (mod_sizes : list F)
  : M (list F) :=
  mod_size ← except_com_error
    (_get_dir_size (os_path_join arma_root "!Workshop" ("@" +:+ mod_name)))
    (let mod_name := replace ":"%char "-"%char mod_name in
     let mod_name := replace "/"%char "-"%char mod_name in
     _get_dir_size (os_path_join arma_root "!Workshop" ("@" +:+ mod_name)));
  mret (mod_sizes ++ [mod_size]).

(** *** [_get_mod_sizes] ([unusedmods.py] 73-84) *)
Definition _get_mod_sizes (mod_names : loc) (arma_root : string)
  : M (list F) :=
  l ← deref mod_names;
  for_in (length l) mod_names 0 (mod_size_body arma_root) [].

(** *** [_print_info] (both files) *)
Definition _print_info (mod_names : list string) (mod_sizes : list F)
  : report F :=
  let table :=
    imap (fun i '(name, size) => (Z.of_nat i + 1, name, fround size 3))
         (zip mod_names mod_sizes) in
  let total_size_mb := fround (fsum mod_sizes) 2 in
  Report total_size_mb
         (fround (fdiv total_size_mb (float_of_Z 1024)) 3)
         table.

(** *** Program A: [modpacksize.main] (lines 97-119), from the parsed
    export on *)
Definition modpacksize_main (soup : Tag) (arma_root : string)
  : M (report F) :=
  names ← lift (_get_mod_names soup);
  mod_names ← alloc names;
  l ← deref mod_names;
  mod_sizes ← for_in (length l) mod_names 0 (mod_size_body arma_root) [];
  shown ← deref mod_names;
  mret (_print_info shown mod_sizes).

(** *** Program B: [unusedmods.main] (lines 110-131), from the parsed
    exports on *)

(** Lines 117-121: [active_mod_names.extend(_get_mod_names(soup))]. *)
Fixpoint extend_all (html_files : list Tag) (active_mod_names : list string)
  : result (list string) :=
  match html_files with
  | [] => Ok active_mod_names
  | soup :: rest =>
      names ← _get_mod_names soup;
      extend_all rest (active_mod_names ++ names)
  end.

(** Line 122: [list(set(active_mod_names))]. *)
Definition dedup (active_mod_names : list string) : list string :=
  elements (list_to_set active_mod_names : gset string).

(** Line 128: the list comprehension. *)
Definition unused (all_mod_names active_mod_names : list string)
  : list string :=
  filter (fun mod_ => mod_ ∉ active_mod_names) all_mod_names.

Definition unusedmods_main (html_files : list Tag) (all_mods_file : Tag)
    (arma_root : string) : M (report F) :=
  active_mod_names ← lift (extend_all html_files []);
  let active_mod_names := dedup active_mod_names in
  all_mod_names ← lift (_get_mod_names all_mods_file);
  unused_mod_names ← alloc (unused all_mod_names active_mod_names);
  unused_mod_sizes ← _get_mod_sizes unused_mod_names arma_root;
  shown ← deref unused_mod_names;
  mret (_print_info shown unused_mod_sizes).

Implicit Types (td : element) (tds : list element) (soup : Tag).
Implicit Types (σ : state) (names pre post : list string) (l : loc).

(** The folder the code looks a mod up in. *)
Definition mod_path (arma_root mod_name : string) : string :=
  os_path_join arma_root "!Workshop" ("@" +:+ mod_name).

(** ** Resolution, read off the file system *)

Definition megabytes (size : F) : F := fdiv size (float_of_Z (1024 ^ 2)).

(** The folder of a mod exists, under its name or its sanitized name. *)
Definition folder_exists (arma_root mod_name : string) : Prop :=
  is_Some (GetFolder (mod_path arma_root mod_name))
  ∨ is_Some (GetFolder (mod_path arma_root (sanitize mod_name))).

(** The size in MB of the folder a mod is found in: the one of its name
    if there is one, else the one of its sanitized name. *)
Definition mod_size (arma_root mod_name : string) : option F :=
  match GetFolder (mod_path arma_root mod_name) with
  | Some size => Some (megabytes size)
  | None =>
      megabytes <$> GetFolder (mod_path arma_root (sanitize mod_name))
  end.

(** The paths asked for while resolving one mod. *)
Definition attempts (arma_root mod_name : string) : list string :=
  match GetFolder (mod_path arma_root mod_name) with
  | Some _ => [mod_path arma_root mod_name]
  | None => [mod_path arma_root mod_name;
             mod_path arma_root (sanitize mod_name)]
  end.

(** The size loop, turn by turn over the names themselves. *)
Fixpoint over_names (arma_root : string) (names : list string)
    (mod_sizes : list F) : M (list F) :=
  match names with
  | [] => mret mod_sizes
  | mod_name :: rest =>
      mod_sizes' ← mod_size_body arma_root mod_name mod_sizes;
      over_names arma_root rest mod_sizes'
  end.

(** What is left of a program once the names are in the heap: the size
    loop, then the report on them. *)
Definition sizes_then_report (arma_root : string) (names : list string)
  : M (report F) := fun σ =>
  match over_names arma_root names [] σ with
  | (Ok sizes, σ') => (Ok (_print_info names sizes), σ')
  | (Raise e, σ') => (Raise e, σ')
  end.

(** * Properties *)

(** ** Extraction *)

Lemma filter_none {A} (P : A -> Prop) `{forall x, Decision (P x)} (l : list A) :
  Forall (fun x => ~ P x) l -> filter P l = [].
Proof.
  induction 1 as [|x l Hx _ IH]; [done|].
  by rewrite filter_cons_False.
Qed.

Lemma getitem_type_tag (t : Tag) :
  getitem t "data-type" =
    match type_tag t with
    | Some v => Ok v
    | None => Raise (KeyError "data-type")
    end.
Proof. reflexivity. Qed.

(** A cell under an untagged parent stops the loop's turn with the
    [KeyError] of the parent lookup, which no handler surrounds. *)
Lemma body_untagged td mod_names :
  type_tag (parent td) = None ->
  _get_mod_names_body td mod_names = Raise (KeyError "data-type").
Proof.
  intros Hp. unfold _get_mod_names_body.
  rewrite (getitem_type_tag (parent td)), Hp. reflexivity.
Qed.

(** Under a tagged parent the turn appends the cell's text if it is a
    display-name cell of a mod row, and nothing otherwise. *)
Lemma body_tagged td mod_names :
  is_Some (type_tag (parent td)) ->
  _get_mod_names_body td mod_names =
    Ok (mod_names ++ if decide (is_display_name td) then [text (self td)] else []).
Proof.
  intros [p Hp]. unfold _get_mod_names_body.
  rewrite !getitem_type_tag.
  destruct (decide (is_display_name td)) as [[Hc Hd]|Hno].
  - rewrite Hc, Hd. reflexivity.
  - rewrite Hp. cbn. rewrite app_nil_r.
    destruct (decide (p = "ModContainer")) as [->|]; [|done].
    destruct (type_tag (self td)) as [d|] eqn:Hd; [|done]. cbn.
    destruct (decide (d = "DisplayName")) as [->|]; [|done].
    by destruct Hno.
Qed.

Lemma loop_tagged tds mod_names :
  Forall (fun td => is_Some (type_tag (parent td))) tds ->
  _get_mod_names_loop tds mod_names =
    Ok (mod_names ++ ((fun td => text (self td)) <$> filter is_display_name tds)).
Proof.
  intros Hall. revert mod_names.
  induction Hall as [|td tds Htd _ IH]; intros mod_names.
  - cbn. by rewrite app_nil_r.
  - rewrite filter_cons. cbn [_get_mod_names_loop].
    rewrite (body_tagged _ _ Htd). cbn [mbind result_bind]. rewrite IH.
    destruct (decide (is_display_name td)).
    + by rewrite fmap_cons, <- app_assoc.
    + by rewrite app_nil_r.
Qed.

Lemma loop_untagged tds mod_names :
  Exists (fun td => type_tag (parent td) = None) tds ->
  _get_mod_names_loop tds mod_names = Raise (KeyError "data-type").
Proof.
  intros Hex. revert mod_names.
  induction Hex as [td tds Htd|td tds _ IH]; intros mod_names; cbn.
  - by rewrite (body_untagged _ _ Htd).
  - destruct (type_tag (parent td)) as [p|] eqn:Hp.
    + rewrite body_tagged by (rewrite Hp; eauto). cbn. apply IH.
    + by rewrite (body_untagged _ _ Hp).
Qed.

(** Induction over a document: a property of every child tag gives the
    property of the parent. *)
Lemma Tag_tree_ind (P : Tag -> Prop) :
  (forall nm a cs,
      Forall (fun c => match c with Child t => P t | NavigableString _ => True end) cs ->
      P (mkTag nm a cs)) ->
  forall t, P t.
Proof.
  intros step. fix IH 1. intros [nm a cs]. apply step.
  induction cs as [|[s|c] cs IHcs]; constructor; auto.
Qed.

(** The parent of whatever [find_all] finds is a tag of the document. *)
Lemma find_all_parent_in_tags soup nm td :
  td ∈ find_all soup nm -> parent td ∈ tags soup.
Proof.
  revert td. induction soup as [n a cs IH] using Tag_tree_ind.
  intros td. cbn.
  set (t := mkTag n a cs). clearbody t.
  rewrite elem_of_cons.
  induction IH as [|[s|c] cs' Hc _ IHcs]; cbn.
  - by intros ?%elem_of_nil.
  - exact IHcs.
  - rewrite !elem_of_app. intros [Hhd|[Hsub|Htl]].
    + destruct (decide (name c = nm)).
      * apply list_elem_of_singleton in Hhd as ->. by left.
      * by apply elem_of_nil in Hhd.
    + right. left. by apply Hc.
    + destruct (IHcs Htl); auto.
Qed.

Lemma get_mod_names_display_names_aux soup :
  parents_tagged soup ->
  _get_mod_names soup = Ok (display_names soup).
Proof.
  intros Hall. unfold _get_mod_names, display_names.
  by rewrite (loop_tagged _ [] Hall).
Qed.

(** C2, as it holds on the code: for every export document in which every
    cell hangs from an element carrying a type tag, [_get_mod_names]
    returns exactly the texts of the cells tagged [DisplayName] whose parent
    is tagged [ModContainer], in document order.  Cells under another kind of
    parent are skipped, and so are cells of a mod row that carry no type
    tag. *)
Theorem get_mod_names_display_names soup :
  parents_tagged soup ->
  _get_mod_names soup = Ok (display_names soup).
Proof.
  apply get_mod_names_display_names_aux.
Qed.

(** C6: a document with a cell whose parent has no type tag makes
    [_get_mod_names] raise the [KeyError] of the parent lookup; the
    extractor does not catch it. *)
Theorem get_mod_names_untagged_parent soup td :
  td ∈ find_all soup "td" ->
  type_tag (parent td) = None ->
  _get_mod_names soup = Raise (KeyError "data-type").
Proof.
  intros Hin Hnone. unfold _get_mod_names.
  apply loop_untagged, Exists_exists. eauto.
Qed.

(** C8, as it holds on the code: a document with no [ModContainer]
    element, in which every cell hangs from an element carrying a type tag,
    yields the empty list of names. *)
Theorem get_mod_names_no_mod_container soup :
  no_mod_container soup ->
  parents_tagged soup ->
  _get_mod_names soup = Ok [].
Proof.
  intros Hnone Hall.
  rewrite (get_mod_names_display_names_aux soup Hall).
  f_equal. unfold display_names.
  rewrite filter_none; [done|].
  apply Forall_forall. intros td Hin [Hc _].
  unfold no_mod_container in Hnone. rewrite Forall_forall in Hnone.
  apply find_all_parent_in_tags in Hin. by apply Hnone in Hin.
Qed.

(** ** Sanitization *)

Lemma replace_chars old new s :
  list_ascii_of_string (replace old new s)
  = (fun c => if Ascii.eqb c old then new else c) <$> list_ascii_of_string s.
Proof. induction s as [|c s IH]; cbn; [done|]. by rewrite IH. Qed.

Lemma sanitize_idempotent_aux (s : string) :
  sanitize (sanitize s) = sanitize s.
Proof.
  assert (forall t, list_ascii_of_string (sanitize t)
    = (fun c => if Ascii.eqb c ":" || Ascii.eqb c "/" then "-"%char else c)
        <$> list_ascii_of_string t) as Hchars.
  { intros t. unfold sanitize. rewrite !replace_chars, <- list_fmap_compose.
    apply list_fmap_ext. intros _ c _. cbn.
    destruct (Ascii.eqb_spec c ":") as [->|]; [done|].
    by destruct (Ascii.eqb_spec c "/"). }
  rewrite <- (string_of_list_ascii_of_string (sanitize (sanitize s))).
  rewrite <- (string_of_list_ascii_of_string (sanitize s)) at 2.
  f_equal. rewrite Hchars, Hchars, <- list_fmap_compose.
  apply list_fmap_ext. intros _ c _. cbn.
  destruct (Ascii.eqb_spec c ":") as [->|Hcolon]; [reflexivity|].
  destruct (Ascii.eqb_spec c "/") as [->|Hslash]; [reflexivity|]. cbn.
  apply Ascii.eqb_neq in Hcolon, Hslash. by rewrite Hcolon, Hslash.
Qed.

(** ** Size resolution *)

Lemma folder_exists_size root mod_name :
  folder_exists root mod_name <-> is_Some (mod_size root mod_name).
Proof.
  unfold folder_exists, mod_size.
  destruct (GetFolder (mod_path root mod_name)) as [size|].
  - split; eauto.
  - rewrite fmap_is_Some. split; [intros [[? [=]]|?]; done|auto].
Qed.

(** One turn of the loop: what it returns, and what it asks the file
    system. *)
Lemma body_resolved root mod_name mod_sizes σ size :
  mod_size root mod_name = Some size ->
  mod_size_body root mod_name mod_sizes σ
  = (Ok (mod_sizes ++ [size]),
     State (heap σ) (queries σ ++ attempts root mod_name)).
Proof.
  unfold mod_size, attempts, mod_size_body, mod_path, sanitize,
    except_com_error, _get_dir_size, megabytes, mbind, M_bind, mret, M_ret.
  destruct (GetFolder (os_path_join root "!Workshop" ("@" +:+ mod_name)))
    as [s1|]; cbn.
  - by intros [= <-].
  - destruct (GetFolder _) as [s2|]; cbn; [|done].
    intros [= <-]. by rewrite <- app_assoc.
Qed.

Lemma body_missing root mod_name mod_sizes σ :
  mod_size root mod_name = None ->
  mod_size_body root mod_name mod_sizes σ
  = (Raise (com_error (mod_path root (sanitize mod_name))),
     State (heap σ)
           (queries σ ++ [mod_path root mod_name; mod_path root (sanitize mod_name)])).
Proof.
  unfold mod_size, mod_size_body, mod_path, sanitize,
    except_com_error, _get_dir_size, megabytes, mbind, M_bind, mret, M_ret.
  destruct (GetFolder (os_path_join root "!Workshop" ("@" +:+ mod_name)))
    as [s1|]; cbn; [done|].
  destruct (GetFolder _) as [s2|]; cbn; [done|].
  intros _. by rewrite <- app_assoc.
Qed.

(** No turn writes to the heap. *)
Lemma body_heap root mod_name mod_sizes σ :
  heap (mod_size_body root mod_name mod_sizes σ).2 = heap σ.
Proof.
  destruct (mod_size root mod_name) as [size|] eqn:Hsize.
  - by rewrite (body_resolved _ _ _ _ _ Hsize).
  - by rewrite (body_missing _ _ _ _ Hsize).
Qed.

(** The iterator over the list object makes the same turns as a walk over
    the names it holds: the bound [n] is never what ends the loop. *)
Lemma for_in_over_names root l names n i mod_sizes σ :
  heap σ !! l = Some names ->
  (length names <= i + n)%nat ->
  for_in n l i (mod_size_body root) mod_sizes σ
  = over_names root (drop i names) mod_sizes σ.
Proof.
  revert i mod_sizes σ.
  induction n as [|n IH]; intros i mod_sizes σ Hl Hlen.
  - rewrite drop_ge by lia. reflexivity.
  - cbn [for_in]. unfold mbind at 1, M_bind, deref. rewrite Hl. cbn [default from_option id].
    destruct (names !! i) as [x|] eqn:Hx.
    + rewrite (drop_S _ _ _ Hx). cbn [over_names].
      unfold mbind, M_bind.
      pose proof (body_heap root x mod_sizes σ) as Hheap.
      destruct (mod_size_body root x mod_sizes σ) as [[acc'|e] σ']; [|done].
      cbn in Hheap. apply IH; [by rewrite Hheap|lia].
    + apply lookup_ge_None in Hx. rewrite drop_ge by lia. reflexivity.
Qed.

Lemma over_names_heap root names mod_sizes σ :
  heap (over_names root names mod_sizes σ).2 = heap σ.
Proof.
  revert mod_sizes σ. induction names as [|x names IH]; intros acc σ; [done|].
  cbn [over_names]. unfold mbind, M_bind.
  pose proof (body_heap root x acc σ) as Hheap.
  destruct (mod_size_body root x acc σ) as [[acc'|e] σ']; cbn in *; [|done].
  by rewrite IH.
Qed.

Lemma over_names_resolved root names sizes mod_sizes σ :
  Forall2 (fun mod_name size => mod_size root mod_name = Some size) names sizes ->
  over_names root names mod_sizes σ
  = (Ok (mod_sizes ++ sizes),
     State (heap σ) (queries σ ++ concat (attempts root <$> names))).
Proof.
  intros Hall. revert mod_sizes σ.
  induction Hall as [|x size names sizes Hx _ IH]; intros acc σ.
  - cbn. rewrite !app_nil_r. by destruct σ.
  - cbn [over_names]. unfold mbind, M_bind.
    rewrite (body_resolved _ _ _ _ _ Hx), IH. cbn.
    by rewrite <- !app_assoc.
Qed.

Lemma over_names_missing root pre mod_name post sizes mod_sizes σ :
  Forall2 (fun mod_name size => mod_size root mod_name = Some size) pre sizes ->
  mod_size root mod_name = None ->
  over_names root (pre ++ mod_name :: post) mod_sizes σ
  = (Raise (com_error (mod_path root (sanitize mod_name))),
     State (heap σ)
           (queries σ ++ concat (attempts root <$> pre)
              ++ [mod_path root mod_name; mod_path root (sanitize mod_name)])).
Proof.
  intros Hall Hnone. revert mod_sizes σ.
  induction Hall as [|x size names sizes Hx _ IH]; intros acc σ.
  - cbn [app over_names]. unfold mbind, M_bind.
    by rewrite (body_missing _ _ _ _ Hnone).
  - cbn [app over_names]. unfold mbind, M_bind.
    rewrite (body_resolved _ _ _ _ _ Hx), IH. cbn.
    by rewrite <- !app_assoc.
Qed.

Lemma resolved_sizes root names :
  Forall (folder_exists root) names ->
  exists sizes,
    Forall2 (fun mod_name size => mod_size root mod_name = Some size) names sizes.
Proof.
  induction 1 as [|x names Hx _ [sizes IH]]; [by exists []|].
  apply folder_exists_size in Hx as [size Hsize].
  exists (size :: sizes). by constructor.
Qed.

Lemma get_mod_sizes_over_names root l names σ :
  heap σ !! l = Some names ->
  _get_mod_sizes l root σ = over_names root names [] σ.
Proof.
  intros Hl. unfold _get_mod_sizes, mbind at 1, M_bind, deref.
  rewrite Hl. cbn [default from_option id].
  by rewrite (for_in_over_names root l names _ 0 [] σ Hl), drop_0 by lia.
Qed.

(** C5: sanitizing twice is sanitizing once, and sanitizing maps the
    characters one by one: [:] and [/] become [-], every other character
    stays what and where it was. *)
Theorem sanitize_idempotent_charwise (s : string) :
  sanitize (sanitize s) = sanitize s
  ∧ list_ascii_of_string (sanitize s)
    = (fun c => if Ascii.eqb c ":" || Ascii.eqb c "/" then "-"%char else c)
        <$> list_ascii_of_string s.
Proof.
  assert (forall t, list_ascii_of_string (sanitize t)
    = (fun c => if Ascii.eqb c ":" || Ascii.eqb c "/" then "-"%char else c)
        <$> list_ascii_of_string t) as Hchars.
  { intros t. unfold sanitize. rewrite !replace_chars, <- list_fmap_compose.
    apply list_fmap_ext. intros _ c _. cbn.
    destruct (Ascii.eqb_spec c ":") as [->|]; [done|].
    by destruct (Ascii.eqb_spec c "/"). }
  split; [|apply Hchars].
  rewrite <- (string_of_list_ascii_of_string (sanitize (sanitize s))).
  rewrite <- (string_of_list_ascii_of_string (sanitize s)) at 2.
  f_equal. rewrite Hchars, Hchars, <- list_fmap_compose.
  apply list_fmap_ext. intros _ c _. cbn.
  destruct (Ascii.eqb_spec c ":") as [->|Hcolon]; [reflexivity|].
  destruct (Ascii.eqb_spec c "/") as [->|Hslash]; [reflexivity|]. cbn.
  apply Ascii.eqb_neq in Hcolon, Hslash. by rewrite Hcolon, Hslash.
Qed.

Example sanitize_rhs : sanitize "RHS: A/B:C" = "RHS- A-B-C".
Proof. reflexivity. Qed.

(** ** The report *)

Lemma print_info_lookup names sizes (i : nat) :
  table (_print_info names sizes) !! i
  = (fun '(name, size) => (Z.of_nat i + 1, name, fround size 3))
      <$> zip names sizes !! i.
Proof.
  unfold _print_info. cbn [table]. rewrite list_lookup_imap.
  by destruct (zip names sizes !! i) as [[name size]|].
Qed.

Lemma print_info_length names sizes :
  length (table (_print_info names sizes))
  = (length names `min` length sizes)%nat.
Proof. unfold _print_info. cbn [table]. by rewrite length_imap, length_zip. Qed.

(** With a size for every name, the rows show the names they were given. *)
Lemma print_info_names names sizes :
  (length names <= length sizes)%nat ->
  shown_names (_print_info names sizes) = names.
Proof.
  intros Hlen. unfold shown_names. apply list_eq. intros i.
  rewrite list_lookup_fmap, print_info_lookup.
  destruct (names !! i) as [name|] eqn:Hname.
  - destruct (lookup_lt_is_Some_2 sizes i) as [size Hsize].
    { apply lookup_lt_Some in Hname. lia. }
    by rewrite (proj2 (lookup_zip_Some _ _ _ _ _) (conj Hname Hsize)).
  - rewrite (proj2 (lookup_zip_None _ _ _)); [done|by left].
Qed.

(** C7: for names and sizes of equal length, the table has one row per
    name, row [i] (from 0) showing the number [i+1], the [i]-th name and the
    [i]-th size rounded to 3 places; the header's MB total is the sum of
    the sizes as they came, rounded to 2 places, and its GB total is that
    rounded MB total divided by 1024, rounded to 3 places. *)
Theorem print_info_report names sizes :
  length names = length sizes ->
  length (table (_print_info names sizes)) = length names
  ∧ (forall (i : nat) name size,
        names !! i = Some name -> sizes !! i = Some size ->
        table (_print_info names sizes) !! i
        = Some (Z.of_nat i + 1, name, fround size 3))
  ∧ total_size_mb (_print_info names sizes) = fround (fsum sizes) 2
  ∧ total_size_gb (_print_info names sizes)
    = fround (fdiv (fround (fsum sizes) 2) (float_of_Z 1024)) 3.
Proof.
  intros Hlen. split; [|split; [|done]].
  - rewrite print_info_length. lia.
  - intros i name size Hname Hsize. rewrite print_info_lookup.
    by rewrite (proj2 (lookup_zip_Some _ _ _ _ _) (conj Hname Hsize)).
Qed.

(** C9: with names and sizes of different lengths [_print_info] still
    returns: the table has as many rows as the shorter of the two, each row
    pairing the name and the size at its position, while the MB total is
    the rounded sum of the whole list of sizes, whatever the names. *)
Theorem print_info_unequal_lengths names sizes :
  length (table (_print_info names sizes))
  = (length names `min` length sizes)%nat
  ∧ (forall (i : nat) row,
        table (_print_info names sizes) !! i = Some row ->
        exists name size,
          names !! i = Some name ∧ sizes !! i = Some size
          ∧ row = (Z.of_nat i + 1, name, fround size 3))
  ∧ total_size_mb (_print_info names sizes) = fround (fsum sizes) 2
  ∧ (forall names',
        total_size_mb (_print_info names' sizes)
        = total_size_mb (_print_info names sizes)).
Proof.
  split; [apply print_info_length|]. split; [|done].
  intros i row. rewrite print_info_lookup.
  destruct (zip names sizes !! i) as [[name size]|] eqn:Hi; [|done].
  intros [= <-]. apply lookup_zip_Some in Hi as [Hname Hsize]. eauto.
Qed.

(** ** The two programs *)

Lemma for_in_heap root n l i (mod_sizes : list F) σ :
  heap (for_in n l i (mod_size_body root) mod_sizes σ).2 = heap σ.
Proof.
  revert i mod_sizes σ. induction n as [|n IH]; intros i acc σ; [done|].
  cbn [for_in]. unfold mbind at 1, M_bind, deref.
  destruct (default [] (heap σ !! l) !! i) as [x|]; [|done].
  unfold mbind, M_bind.
  pose proof (body_heap root x acc σ) as Hheap.
  destruct (mod_size_body root x acc σ) as [[acc'|e] σ']; cbn in *; [|done].
  by rewrite IH.
Qed.

Lemma then_report root l names (loop : M (list F)) σ :
  heap σ !! l = Some names ->
  loop σ = over_names root names [] σ ->
  (mod_sizes ← loop; shown ← deref l; mret (_print_info shown mod_sizes)) σ
  = sizes_then_report root names σ.
Proof.
  intros Hl Hloop. unfold sizes_then_report, mbind, M_bind. rewrite Hloop.
  pose proof (over_names_heap root names [] σ) as Hheap.
  destruct (over_names root names [] σ) as [[sizes|e] σ']; [|done].
  cbn in Hheap. unfold deref, mret, M_ret. by rewrite Hheap, Hl.
Qed.

Lemma fresh_lookup σ names :
  heap (with_names σ names) !! fresh (dom (heap σ)) = Some names.
Proof. apply lookup_insert_eq. Qed.

Lemma program_a_turns soup root σ names :
  _get_mod_names soup = Ok names ->
  modpacksize_main soup root σ = sizes_then_report root names (with_names σ names).
Proof.
  intros Hnames. unfold modpacksize_main.
  unfold mbind at 1, M_bind, lift. rewrite Hnames.
  unfold mbind at 1, M_bind, alloc. fold (with_names σ names).
  unfold mbind at 1, M_bind, deref at 1. rewrite fresh_lookup. cbn [default from_option id].
  apply then_report; [apply fresh_lookup|].
  rewrite (for_in_over_names root _ names _ 0%nat) by (apply fresh_lookup || lia).
  by rewrite drop_0.
Qed.

Lemma extend_all_concat html_files extracted active_mod_names :
  Forall2 (fun soup names => _get_mod_names soup = Ok names)
          html_files extracted ->
  extend_all html_files active_mod_names
  = Ok (active_mod_names ++ concat extracted).
Proof.
  intros Hall. revert active_mod_names.
  induction Hall as [|soup names html_files extracted Hsoup _ IH]; intros acc.
  - cbn. by rewrite app_nil_r.
  - cbn [extend_all concat]. rewrite Hsoup. cbn. by rewrite IH, app_assoc.
Qed.

Lemma program_b_turns html_files all_mods_file root σ extracted all_mod_names :
  Forall2 (fun soup names => _get_mod_names soup = Ok names)
          html_files extracted ->
  _get_mod_names all_mods_file = Ok all_mod_names ->
  let unused_mod_names := unused all_mod_names (dedup (concat extracted)) in
  unusedmods_main html_files all_mods_file root σ
  = sizes_then_report root unused_mod_names (with_names σ unused_mod_names).
Proof.
  intros Hactive Hall names. unfold unusedmods_main.
  unfold mbind at 1, M_bind, lift.
  rewrite (extend_all_concat _ _ [] Hactive), app_nil_l.
  unfold mbind at 1, M_bind. rewrite Hall.
  unfold mbind at 1, M_bind, alloc. fold names. fold (with_names σ names).
  apply then_report; [apply fresh_lookup|].
  apply get_mod_sizes_over_names, fresh_lookup.
Qed.

Lemma sizes_then_report_resolved root names sizes σ :
  Forall2 (fun mod_name size => mod_size root mod_name = Some size) names sizes ->
  sizes_then_report root names σ
  = (Ok (_print_info names sizes),
     State (heap σ) (queries σ ++ concat (attempts root <$> names))).
Proof.
  intros Hall. unfold sizes_then_report.
  by rewrite (over_names_resolved _ _ _ [] σ Hall).
Qed.

Lemma sizes_then_report_missing root pre mod_name post sizes σ :
  Forall2 (fun mod_name size => mod_size root mod_name = Some size) pre sizes ->
  mod_size root mod_name = None ->
  sizes_then_report root (pre ++ mod_name :: post) σ
  = (Raise (com_error (mod_path root (sanitize mod_name))),
     State (heap σ)
           (queries σ ++ concat (attempts root <$> pre)
              ++ [mod_path root mod_name; mod_path root (sanitize mod_name)])).
Proof.
  intros Hall Hnone. unfold sizes_then_report.
  by rewrite (over_names_missing _ _ _ post _ [] σ Hall Hnone).
Qed.

Lemma active_mod_set_concat (extracted : list (list string)) :
  list_to_set (concat extracted) = ActiveModSet extracted.
Proof.
  unfold ActiveModSet. induction extracted as [|names extracted IH]; [done|].
  cbn. by rewrite list_to_set_app_L, IH.
Qed.

Lemma unused_filter all_mod_names (extracted : list (list string)) :
  unused all_mod_names (dedup (concat extracted))
  = filter (fun n => n ∉ ActiveModSet extracted) all_mod_names.
Proof.
  unfold unused, dedup. apply list_filter_iff. intros n.
  by rewrite elem_of_elements, active_mod_set_concat.
Qed.

Lemma sizes_then_report_heap root names σ :
  heap (sizes_then_report root names σ).2 = heap σ.
Proof.
  unfold sizes_then_report.
  pose proof (over_names_heap root names [] σ) as Hheap.
  by destruct (over_names root names [] σ) as [[sizes|e] σ'].
Qed.

(** C1: in Program B the list of unused mods is the all-mods names, in
    their order and with their repetitions, without those that are in the
    set of active mods; this is the list the program puts in the heap,
    resolves and reports. *)
Theorem unused_mod_names_stable_filter
    html_files all_mods_file extracted all_mod_names root σ :
  Forall2 (fun soup names => _get_mod_names soup = Ok names)
          html_files extracted ->
  _get_mod_names all_mods_file = Ok all_mod_names ->
  let UnusedModNames :=
    filter (fun n => n ∉ ActiveModSet extracted) all_mod_names in
  unused all_mod_names (dedup (concat extracted)) = UnusedModNames
  ∧ heap (unusedmods_main html_files all_mods_file root σ).2
    = heap (with_names σ UnusedModNames).
Proof.
  intros Hactive Hall. cbn zeta. split; [apply unused_filter|].
  rewrite (program_b_turns _ _ _ _ _ _ Hactive Hall). cbn zeta.
  by rewrite sizes_then_report_heap, unused_filter.
Qed.

(** C3: when the folder of a mod's name is missing, the turn asks for the
    folder of the sanitized name and for nothing more; if that one is
    missing too, the [com_error] leaves the loop and the program: the names
    after it are never looked up, and there is neither a list of sizes nor
    a report. *)
Theorem fallback_tried_once root mod_name :
  GetFolder (mod_path root mod_name) = None ->
  let fallback := mod_path root (sanitize mod_name) in
  (forall mod_sizes σ,
      mod_size_body root mod_name mod_sizes σ
      = (match GetFolder fallback with
         | Some size => Ok (mod_sizes ++ [megabytes size])
         | None => Raise (com_error fallback)
         end,
         State (heap σ) (queries σ ++ [mod_path root mod_name; fallback])))
  ∧ (GetFolder fallback = None ->
     forall pre post,
       Forall (folder_exists root) pre ->
       let names := pre ++ mod_name :: post in
       let asked σ :=
         queries σ ++ concat (attempts root <$> pre)
           ++ [mod_path root mod_name; fallback] in
       (forall l σ,
           heap σ !! l = Some names ->
           _get_mod_sizes l root σ
           = (Raise (com_error fallback), State (heap σ) (asked σ)))
       ∧ (forall soup σ,
             _get_mod_names soup = Ok names ->
             modpacksize_main soup root σ
             = (Raise (com_error fallback),
                State (heap (with_names σ names)) (asked σ)))
       ∧ (forall html_files all_mods_file extracted all_mod_names σ,
             Forall2 (fun soup names => _get_mod_names soup = Ok names)
                     html_files extracted ->
             _get_mod_names all_mods_file = Ok all_mod_names ->
             unused all_mod_names (dedup (concat extracted)) = names ->
             unusedmods_main html_files all_mods_file root σ
             = (Raise (com_error fallback),
                State (heap (with_names σ names)) (asked σ)))).
Proof.
  intros Hprimary fallback. split.
  - intros mod_sizes σ.
    destruct (GetFolder fallback) as [size|] eqn:Hfallback.
    + rewrite (body_resolved _ _ _ _ (megabytes size)).
      * unfold attempts. by rewrite Hprimary.
      * unfold mod_size. fold fallback. by rewrite Hprimary, Hfallback.
    + apply body_missing. unfold mod_size. fold fallback.
      by rewrite Hprimary, Hfallback.
  - intros Hfallback pre post Hpre names asked.
    assert (mod_size root mod_name = None) as Hnone.
    { unfold mod_size. fold fallback. by rewrite Hprimary, Hfallback. }
    destruct (resolved_sizes _ _ Hpre) as [sizes Hsizes].
    split; [|split].
    + intros l σ Hl. rewrite (get_mod_sizes_over_names _ _ _ _ Hl).
      apply (over_names_missing _ _ _ _ _ _ _ Hsizes Hnone).
    + intros soup σ Hsoup. rewrite (program_a_turns _ _ _ _ Hsoup).
      by rewrite (sizes_then_report_missing _ _ _ post _ _ Hsizes Hnone).
    + intros html_files all_mods_file extracted all_mod_names σ Hactive Hall Hnames.
      rewrite (program_b_turns _ _ _ _ _ _ Hactive Hall). cbn zeta.
      rewrite Hnames.
      by rewrite (sizes_then_report_missing _ _ _ post _ _ Hsizes Hnone).
Qed.

(** C4: when every name has its folder, under the name or under the
    sanitized name, [_get_mod_sizes] returns one size per name, in the
    order of the names: the size at each position is that of the folder of
    the name at that position. *)
Theorem get_mod_sizes_length_order l root names σ :
  heap σ !! l = Some names ->
  Forall (folder_exists root) names ->
  exists sizes,
    (_get_mod_sizes l root σ).1 = Ok sizes
    ∧ length sizes = length names
    ∧ forall (i : nat) mod_name,
        names !! i = Some mod_name -> sizes !! i = mod_size root mod_name.
Proof.
  intros Hl Hall. destruct (resolved_sizes _ _ Hall) as [sizes Hsizes].
  exists sizes. split; [|split].
  - rewrite (get_mod_sizes_over_names _ _ _ _ Hl).
    by rewrite (over_names_resolved _ _ _ [] σ Hsizes).
  - symmetry. by eapply Forall2_length.
  - intros i mod_name Hi.
    destruct (Forall2_lookup_l _ _ _ _ _ Hsizes Hi) as (size & -> & Hsize).
    by rewrite Hsize.
Qed.

(** C10: resolving sizes writes to no list object, so the list of names
    is after the loop what it was before, whether the loop ends or raises;
    and when the folders are found, the rows of the report show the names
    as extracted, not their sanitized forms. *)
Theorem names_not_mutated root :
  (forall l σ, heap (_get_mod_sizes l root σ).2 = heap σ)
  ∧ (forall soup names σ,
        _get_mod_names soup = Ok names ->
        heap (modpacksize_main soup root σ).2 = heap (with_names σ names)
        ∧ (Forall (folder_exists root) names ->
           exists rep,
             (modpacksize_main soup root σ).1 = Ok rep ∧ shown_names rep = names))
  ∧ (forall html_files all_mods_file extracted all_mod_names σ,
        Forall2 (fun soup names => _get_mod_names soup = Ok names)
                html_files extracted ->
        _get_mod_names all_mods_file = Ok all_mod_names ->
        let names := unused all_mod_names (dedup (concat extracted)) in
        heap (unusedmods_main html_files all_mods_file root σ).2
        = heap (with_names σ names)
        ∧ (Forall (folder_exists root) names ->
           exists rep,
             (unusedmods_main html_files all_mods_file root σ).1 = Ok rep
             ∧ shown_names rep = names)).
Proof.
  assert (forall names σ,
    Forall (folder_exists root) names ->
    exists rep,
      (sizes_then_report root names σ).1 = Ok rep ∧ shown_names rep = names)
    as Hshown.
  { intros names σ Hall.
    destruct (resolved_sizes _ _ Hall) as [sizes Hsizes].
    exists (_print_info names sizes).
    rewrite (sizes_then_report_resolved _ _ _ _ Hsizes). split; [done|].
    apply print_info_names. by rewrite (Forall2_length _ _ _ Hsizes). }
  split; [|split].
  - intros l σ. unfold _get_mod_sizes, mbind, M_bind, deref.
    apply for_in_heap.
  - intros soup names σ Hsoup. rewrite (program_a_turns _ _ _ _ Hsoup).
    split; [apply sizes_then_report_heap|apply Hshown].
  - intros html_files all_mods_file extracted all_mod_names σ Hactive Hall names.
    rewrite (program_b_turns _ _ _ _ _ _ Hactive Hall).
    split; [apply sizes_then_report_heap|apply Hshown].
Qed.

(** * Further properties *)

(** ** Extraction succeeds or raises [KeyError], nothing else *)

Lemma get_mod_names_cases soup :
  (parents_tagged soup ∧ _get_mod_names soup = Ok (display_names soup))
  ∨ (¬ parents_tagged soup
     ∧ _get_mod_names soup = Raise (KeyError "data-type")).
Proof.
  destruct (decide (parents_tagged soup)) as [Hall|Hnot].
  - left. split; [done|]. by apply get_mod_names_display_names_aux.
  - right. split; [done|]. unfold _get_mod_names.
    apply loop_untagged. apply not_Forall_Exists in Hnot; [|apply _].
    eapply Exists_impl; [exact Hnot|]. cbn. intros td Htd.
    by apply eq_None_not_Some.
Qed.

(** X1: [_get_mod_names] returns the display names exactly when every cell
    hangs from an element with a type tag; otherwise it raises the
    [KeyError] of the parent lookup.  It never raises anything else and
    never returns another list. *)
Theorem get_mod_names_dichotomy soup :
  (parents_tagged soup ∧ _get_mod_names soup = Ok (display_names soup))
  ∨ (¬ parents_tagged soup
     ∧ _get_mod_names soup = Raise (KeyError "data-type")).
Proof. apply get_mod_names_cases. Qed.

(** ** One turn of the size loop *)

Lemma sanitize_fixed (s : string) :
  sanitize s = s
  ↔ (":"%char ∉ list_ascii_of_string s) ∧ ("/"%char ∉ list_ascii_of_string s).
Proof.
  unfold sanitize. induction s as [|c s IH]; cbn.
  - split; [intros _; split; apply not_elem_of_nil|done].
  - rewrite !not_elem_of_cons. split.
    + intros [= Hc Hs]. apply IH in Hs as [Hs1 Hs2].
      destruct (Ascii.eqb_spec c ":") as [->|Hcolon]; [done|].
      destruct (Ascii.eqb_spec c "/") as [->|Hslash]; [done|].
      repeat split; congruence.
    + intros [[Hc1 Hs1] [Hc2 Hs2]].
      rewrite (proj2 IH) by done.
      destruct (Ascii.eqb_spec c ":") as [->|Hcolon]; [done|].
      by destruct (Ascii.eqb_spec c "/") as [->|Hslash].
Qed.

(** X2: sanitizing leaves a name as it is exactly when the name has neither
    [:] nor [/]; and a sanitized name never has one of them. *)
Theorem sanitize_fixed_points (s : string) :
  (sanitize s = s
   ↔ (":"%char ∉ list_ascii_of_string s) ∧ ("/"%char ∉ list_ascii_of_string s))
  ∧ (":"%char ∉ list_ascii_of_string (sanitize s))
  ∧ ("/"%char ∉ list_ascii_of_string (sanitize s)).
Proof.
  split; [apply sanitize_fixed|].
  apply sanitize_fixed, sanitize_idempotent_aux.
Qed.

(** X3: when the folder of the literal name exists, the turn asks the file
    system once, for that folder, and takes its size: the sanitized name is
    not looked up, whether or not a folder of that name exists too. *)
Theorem body_literal_name_first root mod_name mod_sizes σ size :
  GetFolder (mod_path root mod_name) = Some size ->
  mod_size_body root mod_name mod_sizes σ
  = (Ok (mod_sizes ++ [megabytes size]),
     State (heap σ) (queries σ ++ [mod_path root mod_name])).
Proof.
  intros Hprimary.
  rewrite (body_resolved _ _ _ _ (megabytes size)).
  - unfold attempts. by rewrite Hprimary.
  - unfold mod_size. by rewrite Hprimary.
Qed.

(** X4: for a name with neither [:] nor [/] the retry cannot help: a missing
    folder is asked for twice under the same path, and the turn raises
    [com_error]. *)
Theorem body_plain_name_missing root mod_name mod_sizes σ :
  ":"%char ∉ list_ascii_of_string mod_name ->
  "/"%char ∉ list_ascii_of_string mod_name ->
  GetFolder (mod_path root mod_name) = None ->
  mod_size_body root mod_name mod_sizes σ
  = (Raise (com_error (mod_path root mod_name)),
     State (heap σ)
           (queries σ ++ [mod_path root mod_name; mod_path root mod_name])).
Proof.
  intros Hcolon Hslash Hprimary.
  assert (sanitize mod_name = mod_name) as Hsame by by apply sanitize_fixed.
  rewrite body_missing.
  - by rewrite Hsame.
  - unfold mod_size. by rewrite Hsame, Hprimary.
Qed.

(** ** The size loop as a whole *)

Lemma attempts_length root mod_name :
  (1 <= length (attempts root mod_name) <= 2)%nat.
Proof.
  unfold attempts.
  destruct (GetFolder (mod_path root mod_name)); cbn; lia.
Qed.

Lemma attempts_elem root mod_name q :
  q ∈ attempts root mod_name ->
  q = mod_path root mod_name ∨ q = mod_path root (sanitize mod_name).
Proof.
  unfold attempts.
  destruct (GetFolder (mod_path root mod_name)).
  - intros ->%list_elem_of_singleton. by left.
  - intros [->|Hq]%elem_of_cons; [by left|].
    apply list_elem_of_singleton in Hq as ->. by right.
Qed.

(** A loop that ends has found a size for every name. *)
Lemma over_names_ok_inv root names mod_sizes σ out :
  (over_names root names mod_sizes σ).1 = Ok out ->
  exists sizes,
    Forall2 (fun mod_name size => mod_size root mod_name = Some size) names sizes
    ∧ out = mod_sizes ++ sizes.
Proof.
  revert mod_sizes σ. induction names as [|x names IH]; intros acc σ.
  - cbn. intros [= <-]. exists []. by rewrite app_nil_r.
  - cbn [over_names]. unfold mbind, M_bind.
    destruct (mod_size root x) as [size|] eqn:Hsize.
    + rewrite (body_resolved _ _ _ _ _ Hsize).
      intros (sizes & Hsizes & ->)%IH.
      exists (size :: sizes). split; [by constructor|].
      by rewrite <- app_assoc.
    + by rewrite (body_missing _ _ _ _ Hsize).
Qed.

(** Whatever the outcome, the loop asks for at most two paths per name, each
    the folder of a name of the list or of its sanitized form. *)
Lemma over_names_queries root names mod_sizes σ :
  exists qs,
    queries (over_names root names mod_sizes σ).2 = queries σ ++ qs
    ∧ (length qs <= 2 * length names)%nat
    ∧ forall q, q ∈ qs ->
        exists mod_name,
          mod_name ∈ names
          ∧ (q = mod_path root mod_name
             ∨ q = mod_path root (sanitize mod_name)).
Proof.
  revert mod_sizes σ. induction names as [|x names IH]; intros acc σ.
  - exists []. cbn. rewrite app_nil_r. split; [done|]. split; [lia|].
    by intros q ?%elem_of_nil.
  - cbn [over_names]. unfold mbind, M_bind.
    destruct (mod_size root x) as [size|] eqn:Hsize.
    + rewrite (body_resolved _ _ _ _ _ Hsize).
      destruct (IH (acc ++ [size])
                  (State (heap σ) (queries σ ++ attempts root x)))
        as (qs & Hqs & Hlen & Hin).
      exists (attempts root x ++ qs). rewrite Hqs. cbn [queries].
      split; [by rewrite app_assoc|]. split.
      * rewrite length_app. pose proof (attempts_length root x). cbn. lia.
      * intros q [Hq|Hq]%elem_of_app.
        -- exists x. split; [by left|by apply attempts_elem].
        -- destruct (Hin q Hq) as (n & Hn & Hpath).
           exists n. split; [by right|done].
    + rewrite (body_missing _ _ _ _ Hsize). cbn.
      exists [mod_path root x; mod_path root (sanitize x)].
      split; [done|]. split; [cbn; lia|].
      intros q Hq. exists x. split; [by left|].
      apply elem_of_cons in Hq as [->|Hq]; [by left|].
      apply list_elem_of_singleton in Hq as ->. by right.
Qed.

(** X5: [_get_mod_sizes] returns a list of sizes exactly when every name has
    its folder, under the name or under the sanitized name; if one has none,
    it raises. *)
Theorem get_mod_sizes_success_iff l root names σ :
  heap σ !! l = Some names ->
  (exists sizes, (_get_mod_sizes l root σ).1 = Ok sizes)
  ↔ Forall (folder_exists root) names.
Proof.
  intros Hl. rewrite (get_mod_sizes_over_names _ _ _ _ Hl). split.
  - intros [out (sizes & Hsizes & _)%over_names_ok_inv].
    apply Forall_forall. intros n Hn. apply folder_exists_size.
    apply list_elem_of_lookup in Hn as [i Hi].
    destruct (Forall2_lookup_l _ _ _ _ _ Hsizes Hi) as (size & _ & ->). eauto.
  - intros [sizes Hsizes]%resolved_sizes. exists sizes.
    by rewrite (over_names_resolved _ _ _ [] σ Hsizes).
Qed.

(** X6: [_get_mod_sizes] asks the file system for at most two paths per
    name, whether it returns or raises, and for at least one per name when it
    returns; every path it asks for is the folder of a name of the list or of
    its sanitized form. *)
Theorem get_mod_sizes_queries l root names σ :
  heap σ !! l = Some names ->
  exists qs,
    queries (_get_mod_sizes l root σ).2 = queries σ ++ qs
    ∧ (length qs <= 2 * length names)%nat
    ∧ (forall q, q ∈ qs ->
         exists mod_name,
           mod_name ∈ names
           ∧ (q = mod_path root mod_name
              ∨ q = mod_path root (sanitize mod_name)))
    ∧ (forall sizes,
         (_get_mod_sizes l root σ).1 = Ok sizes ->
         (length names <= length qs)%nat).
Proof.
  intros Hl. rewrite (get_mod_sizes_over_names _ _ _ _ Hl).
  destruct (over_names_queries root names [] σ) as (qs & Hqs & Hlen & Hin).
  exists qs. split; [done|]. split; [done|]. split; [done|].
  intros out (sizes & Hsizes & _)%over_names_ok_inv.
  rewrite (over_names_resolved _ _ _ [] σ Hsizes) in Hqs. cbn in Hqs.
  apply app_inv_head in Hqs as <-.
  clear. induction names as [|x names IH]; cbn; [lia|].
  rewrite length_app. pose proof (attempts_length root x). lia.
Qed.

(** ** The programs as a whole *)

Lemma filter_all {A} (P : A -> Prop) `{forall x, Decision (P x)} (xs : list A) :
  Forall P xs -> filter P xs = xs.
Proof.
  induction 1 as [|x xs Hx _ IH]; [done|].
  by rewrite filter_cons_True, IH.
Qed.

Lemma program_a_raise soup root σ e :
  _get_mod_names soup = Raise e ->
  modpacksize_main soup root σ = (Raise e, σ).
Proof.
  intros Hsoup. unfold modpacksize_main, mbind, M_bind, lift.
  by rewrite Hsoup.
Qed.

Lemma extend_all_cases html_files active_mod_names :
  (Forall parents_tagged html_files
   ∧ extend_all html_files active_mod_names
     = Ok (active_mod_names ++ concat (display_names <$> html_files)))
  ∨ (¬ Forall parents_tagged html_files
     ∧ extend_all html_files active_mod_names = Raise (KeyError "data-type")).
Proof.
  revert active_mod_names.
  induction html_files as [|soup html_files IH]; intros acc.
  - left. split; [constructor|]. cbn. by rewrite app_nil_r.
  - cbn [extend_all].
    destruct (get_mod_names_cases soup) as [[Hsoup ->]|[Hsoup ->]]; cbn.
    + destruct (IH (acc ++ display_names soup)) as [[Hall ->]|[Hall ->]].
      * left. split; [by constructor|]. by rewrite <- app_assoc.
      * right. split; [|done]. by intros [_ ?]%Forall_cons.
    + right. split; [|done]. by intros [? _]%Forall_cons.
Qed.

Lemma extracted_display_names html_files :
  Forall parents_tagged html_files ->
  Forall2 (fun soup names => _get_mod_names soup = Ok names)
          html_files (display_names <$> html_files).
Proof.
  induction 1 as [|soup html_files Hsoup _ IH]; cbn; constructor; [|done].
  by apply get_mod_names_display_names_aux.
Qed.

Lemma program_b_all_raise html_files all_mods_file root σ extracted e :
  Forall2 (fun soup names => _get_mod_names soup = Ok names)
          html_files extracted ->
  _get_mod_names all_mods_file = Raise e ->
  unusedmods_main html_files all_mods_file root σ = (Raise e, σ).
Proof.
  intros Hactive Hall. unfold unusedmods_main.
  unfold mbind at 1, M_bind, lift.
  rewrite (extend_all_concat _ _ [] Hactive).
  unfold mbind at 1, M_bind. by rewrite Hall.
Qed.

Lemma sizes_then_report_queries root names σ :
  queries (sizes_then_report root names σ).2
  = queries (over_names root names [] σ).2.
Proof.
  unfold sizes_then_report.
  by destruct (over_names root names [] σ) as [[sizes|e] σ'].
Qed.

(** X7: an export with a cell under an element without type tag stops
    Program A with [KeyError] before anything else happens: no list is
    allocated and no folder is asked for. *)
Theorem modpacksize_main_malformed soup root σ :
  ¬ parents_tagged soup ->
  modpacksize_main soup root σ = (Raise (KeyError "data-type"), σ).
Proof.
  intros Hnot. apply program_a_raise.
  by destruct (get_mod_names_cases soup) as [[? _]|[_ ->]].
Qed.

(** X8: if any of the exports given to Program B, active or all-mods, has a
    cell under an element without type tag, the program stops with
    [KeyError] and has asked for no folder, whatever the other exports
    hold. *)
Theorem unusedmods_main_malformed html_files all_mods_file root σ :
  ¬ Forall parents_tagged (html_files ++ [all_mods_file]) ->
  unusedmods_main html_files all_mods_file root σ
  = (Raise (KeyError "data-type"), σ).
Proof.
  intros Hnot.
  destruct (extend_all_cases html_files []) as [[Hactive _]|[_ Hraise]].
  - apply (program_b_all_raise _ _ _ _ _ _ (extracted_display_names _ Hactive)).
    destruct (get_mod_names_cases all_mods_file) as [[Hall _]|[_ ->]]; [|done].
    destruct Hnot. apply Forall_app. split; [done|by constructor].
  - unfold unusedmods_main, mbind, M_bind, lift. by rewrite Hraise.
Qed.

(** X9: Program A, end to end.  On an export whose cells all hang from
    tagged elements and whose display names all have their folder, it
    returns the report of these names with the sizes of their folders, row
    by row in document order, and has asked the file system for exactly the
    attempts of each name in turn. *)
Theorem modpacksize_main_report soup root σ :
  parents_tagged soup ->
  Forall (folder_exists root) (display_names soup) ->
  exists sizes,
    Forall2 (fun mod_name size => mod_size root mod_name = Some size)
            (display_names soup) sizes
    ∧ modpacksize_main soup root σ
      = (Ok (_print_info (display_names soup) sizes),
         State (heap (with_names σ (display_names soup)))
               (queries σ ++ concat (attempts root <$> display_names soup))).
Proof.
  intros Hsoup [sizes Hsizes]%resolved_sizes. exists sizes. split; [done|].
  rewrite (program_a_turns _ _ _ _ (get_mod_names_display_names_aux _ Hsoup)).
  by rewrite (sizes_then_report_resolved _ _ _ _ Hsizes).
Qed.

(** X10: Program B asks the file system only for folders of unused mods:
    every path it asks for is the folder, under the name or the sanitized
    name, of a name of the all-mods export that no active export lists.
    This holds whether the run ends with a report or with an error. *)
Theorem unusedmods_main_queries
    html_files all_mods_file extracted all_mod_names root σ :
  Forall2 (fun soup names => _get_mod_names soup = Ok names)
          html_files extracted ->
  _get_mod_names all_mods_file = Ok all_mod_names ->
  exists qs,
    queries (unusedmods_main html_files all_mods_file root σ).2
    = queries σ ++ qs
    ∧ forall q, q ∈ qs ->
        exists mod_name,
          mod_name ∈ all_mod_names
          ∧ (mod_name ∉ ActiveModSet extracted)
          ∧ (q = mod_path root mod_name
             ∨ q = mod_path root (sanitize mod_name)).
Proof.
  intros Hactive Hall.
  rewrite (program_b_turns _ _ _ _ _ _ Hactive Hall). cbn zeta.
  rewrite sizes_then_report_queries, unused_filter.
  destruct (over_names_queries root
              (filter (fun n => n ∉ ActiveModSet extracted) all_mod_names) []
              (with_names σ
                 (filter (fun n => n ∉ ActiveModSet extracted) all_mod_names)))
    as (qs & Hqs & _ & Hin).
  exists qs. split; [done|].
  intros q Hq. destruct (Hin q Hq) as (n & Hn & Hpath).
  apply list_elem_of_filter in Hn as [Hn1 Hn2]. eauto.
Qed.

(** X11: when every name of the all-mods export is active, Program B
    reports an empty table and asks for no folder. *)
Theorem unusedmods_main_all_active
    html_files all_mods_file extracted all_mod_names root σ :
  Forall2 (fun soup names => _get_mod_names soup = Ok names)
          html_files extracted ->
  _get_mod_names all_mods_file = Ok all_mod_names ->
  (forall mod_name,
      mod_name ∈ all_mod_names -> mod_name ∈ ActiveModSet extracted) ->
  unusedmods_main html_files all_mods_file root σ
  = (Ok (_print_info [] []), with_names σ []).
Proof.
  intros Hactive Hall Hsub.
  rewrite (program_b_turns _ _ _ _ _ _ Hactive Hall). cbn zeta.
  rewrite unused_filter, filter_none; [done|].
  apply Forall_forall. intros n Hn Hnot. by apply Hnot, Hsub.
Qed.

(** X12: Program B depends on the active exports only through the set of
    names they list: two lists of active exports with the same set of names
    (in another order, split differently over files, with repetitions) give
    the same run on the same all-mods export. *)
Theorem unusedmods_main_active_set
    html_files1 html_files2 extracted1 extracted2 all_mods_file root σ :
  Forall2 (fun soup names => _get_mod_names soup = Ok names)
          html_files1 extracted1 ->
  Forall2 (fun soup names => _get_mod_names soup = Ok names)
          html_files2 extracted2 ->
  ActiveModSet extracted1 = ActiveModSet extracted2 ->
  unusedmods_main html_files1 all_mods_file root σ
  = unusedmods_main html_files2 all_mods_file root σ.
Proof.
  intros Hactive1 Hactive2 Hsame.
  destruct (_get_mod_names all_mods_file) as [all_mod_names|e] eqn:Hall.
  - rewrite (program_b_turns _ _ _ _ _ _ Hactive1 Hall).
    rewrite (program_b_turns _ _ _ _ _ _ Hactive2 Hall). cbn zeta.
    by rewrite !unused_filter, Hsame.
  - rewrite (program_b_all_raise _ _ _ _ _ _ Hactive1 Hall).
    by rewrite (program_b_all_raise _ _ _ _ _ _ Hactive2 Hall).
Qed.

(** X13: when the active exports list no mod at all, Program B is Program A
    on the all-mods export: same report or same error, same folders asked
    for. *)
Theorem unusedmods_main_no_active
    html_files all_mods_file extracted root σ :
  Forall2 (fun soup names => _get_mod_names soup = Ok names)
          html_files extracted ->
  ActiveModSet extracted = ∅ ->
  unusedmods_main html_files all_mods_file root σ
  = modpacksize_main all_mods_file root σ.
Proof.
  intros Hactive Hempty.
  destruct (_get_mod_names all_mods_file) as [all_mod_names|e] eqn:Hall.
  - rewrite (program_b_turns _ _ _ _ _ _ Hactive Hall). cbn zeta.
    rewrite (program_a_turns _ _ _ _ Hall), unused_filter, Hempty.
    rewrite filter_all; [done|].
    apply Forall_forall. intros n _. apply not_elem_of_empty.
  - rewrite (program_b_all_raise _ _ _ _ _ _ Hactive Hall).
    by rewrite (program_a_raise _ _ _ _ Hall).
Qed.

(** X16: Program B, end to end.  When the exports are read without error
    and every unused name has its folder, the program returns the report of
    the unused names, in the order of the all-mods export, with the sizes of
    their folders, and has asked for exactly the attempts of each unused name
    in turn.  The folders of active mods play no part. *)
Theorem unusedmods_main_report
    html_files all_mods_file extracted all_mod_names root σ :
  Forall2 (fun soup names => _get_mod_names soup = Ok names)
          html_files extracted ->
  _get_mod_names all_mods_file = Ok all_mod_names ->
  let names := filter (fun n => n ∉ ActiveModSet extracted) all_mod_names in
  Forall (folder_exists root) names ->
  exists sizes,
    Forall2 (fun mod_name size => mod_size root mod_name = Some size)
            names sizes
    ∧ unusedmods_main html_files all_mods_file root σ
      = (Ok (_print_info names sizes),
         State (heap (with_names σ names))
               (queries σ ++ concat (attempts root <$> names))).
Proof.
  intros Hactive Hall names [sizes Hsizes]%resolved_sizes.
  exists sizes. split; [done|].
  rewrite (program_b_turns _ _ _ _ _ _ Hactive Hall). cbn zeta.
  rewrite unused_filter. fold names.
  by rewrite (sizes_then_report_resolved _ _ _ _ Hsizes).
Qed.

(** ** Extraction, part by part *)

Lemma find_all_below (t : Tag) nm : find_all t nm = below t nm (contents t).
Proof.
  destruct t as [n a cs]. cbn [find_all contents].
  set (p := mkTag n a cs). clearbody p.
  induction cs as [|[s|c] cs IH]; cbn [below]; [done|done|].
  by rewrite IH.
Qed.

Lemma below_app (p : Tag) nm cs1 cs2 :
  below p nm (cs1 ++ cs2) = below p nm cs1 ++ below p nm cs2.
Proof.
  induction cs1 as [|[s|c] cs1 IH]; cbn; [done|done|].
  by rewrite IH, <- !app_assoc.
Qed.

Lemma loop_app tds1 tds2 mod_names :
  _get_mod_names_loop (tds1 ++ tds2) mod_names
  = _get_mod_names_loop tds1 mod_names ≫= _get_mod_names_loop tds2.
Proof.
  revert mod_names. induction tds1 as [|td tds1 IH]; intros acc; [done|].
  cbn [app _get_mod_names_loop].
  destruct (_get_mod_names_body td acc) as [acc'|e]; cbn; [apply IH|done].
Qed.

(** A turn looks at the attributes of the parent and at nothing else of
    it. *)
Lemma body_parent_attrs (p p' c : Tag) mod_names :
  attrs p = attrs p' ->
  _get_mod_names_body (Element p c) mod_names
  = _get_mod_names_body (Element p' c) mod_names.
Proof.
  intros Hattrs. unfold _get_mod_names_body, getitem. cbn [parent self].
  by rewrite Hattrs.
Qed.

Lemma below_parent_attrs (p p' : Tag) nm cs mod_names :
  attrs p = attrs p' ->
  _get_mod_names_loop (below p nm cs) mod_names
  = _get_mod_names_loop (below p' nm cs) mod_names.
Proof.
  intros Hattrs. revert mod_names.
  induction cs as [|[s|c] cs IH]; intros acc; cbn [below]; [done|apply IH|].
  rewrite !(loop_app (if decide (name c = nm) then _ else _)).
  assert (_get_mod_names_loop
            (if decide (name c = nm) then [Element p c] else []) acc
          = _get_mod_names_loop
              (if decide (name c = nm) then [Element p' c] else []) acc)
    as ->.
  { destruct (decide (name c = nm)); [|done]. cbn.
    by rewrite (body_parent_attrs p p' c acc Hattrs). }
  destruct (_get_mod_names_loop _ acc) as [acc1|e]; cbn; [|done].
  rewrite !loop_app.
  destruct (_get_mod_names_loop (find_all c nm) acc1) as [acc2|e]; cbn; [|done].
  apply IH.
Qed.

(** The names found so far do not change what a turn adds. *)
Lemma loop_acc tds mod_names :
  _get_mod_names_loop tds mod_names
  = names ← _get_mod_names_loop tds []; Ok (mod_names ++ names).
Proof.
  revert mod_names. induction tds as [|td tds IH]; intros acc.
  - cbn. by rewrite app_nil_r.
  - cbn [_get_mod_names_loop].
    destruct (type_tag (parent td)) as [v|] eqn:Hp.
    + rewrite !body_tagged by (rewrite Hp; eauto). cbn.
      rewrite (IH (acc ++ _)), (IH (if decide _ then _ else _)).
      destruct (_get_mod_names_loop tds []) as [names|e]; cbn; [|done].
      by rewrite <- app_assoc.
    + by rewrite !body_untagged.
Qed.

(** X14: extraction goes part by part: the names of an element whose
    children are [cs1] followed by [cs2] are the names found under [cs1]
    followed by those found under [cs2]; an error in either part is the
    error of the whole, and there is no other. *)
Theorem get_mod_names_app nm a cs1 cs2 :
  _get_mod_names (mkTag nm a (cs1 ++ cs2))
  = names1 ← _get_mod_names (mkTag nm a cs1);
    names2 ← _get_mod_names (mkTag nm a cs2);
    Ok (names1 ++ names2).
Proof.
  unfold _get_mod_names. rewrite !find_all_below. cbn [contents].
  rewrite below_app, loop_app.
  rewrite (below_parent_attrs _ (mkTag nm a cs1) "td" cs1) by done.
  destruct (_get_mod_names_loop _ []) as [names1|e]; cbn; [|done].
  rewrite loop_acc.
  by rewrite (below_parent_attrs _ (mkTag nm a cs2) "td" cs2) by done.
Qed.

Lemma append_empty (s : string) : s +:+ "" = s.
Proof.
  induction s as [|c s IH]; [done|].
  change (String c (s +:+ "") = String c s). by rewrite IH.
Qed.

Lemma loop_mod_rows (p : Tag) names mod_names :
  _get_mod_names_loop (below p "td" (mod_row <$> names)) mod_names
  = Ok (mod_names ++ names).
Proof.
  revert mod_names. induction names as [|n names IH]; intros acc.
  - cbn. by rewrite app_nil_r.
  - cbn [fmap list_fmap below mod_row tr]. rewrite decide_False by done.
    rewrite app_nil_l, loop_app.
    assert (_get_mod_names_loop
              (find_all
                 (mkTag "tr" {[ "data-type" := "ModContainer" ]}
                    [td {[ "data-type" := "DisplayName" ]} n; td ∅ "Steam"])
                 "td") acc
            = Ok (acc ++ [n])) as ->.
    { rewrite find_all_below. cbn [contents below td find_all].
      rewrite !decide_True by done. cbn [app _get_mod_names_loop].
      rewrite body_tagged by (vm_compute; eauto).
      rewrite decide_True by (split; vm_compute; reflexivity).
      cbn [mbind result_bind].
      rewrite body_tagged by (vm_compute; eauto).
      rewrite decide_False by (intros [_ [=]]).
      cbn. by rewrite append_empty, app_nil_r. }
    cbn [mbind result_bind]. rewrite IH. by rewrite <- app_assoc.
Qed.

(** X15: round trip with the launcher's layout.  From a document that holds
    a table with one [ModContainer] row per mod, each with a [DisplayName]
    cell and an untagged cell, followed by a table of [DlcContainer] rows,
    extraction gives back the mod names, in order and with repetitions, and
    none of the DLC names. *)
Theorem get_mod_names_export_names names :
  _get_mod_names (export names) = Ok names.
Proof.
  unfold export, BeautifulSoup.
  change [table_ (mod_row <$> names); table_ [dlc_row "Contact"]]
    with ([table_ (mod_row <$> names)] ++ [table_ [dlc_row "Contact"]]).
  unfold _get_mod_names. rewrite !find_all_below. cbn [contents].
  rewrite below_app, loop_app.
  assert (_get_mod_names_loop
            (below (mkTag "[document]" ∅
                      ([table_ (mod_row <$> names)] ++ [table_ [dlc_row "Contact"]]))
               "td" [table_ (mod_row <$> names)]) []
          = Ok names) as ->.
  { cbn [below table_]. rewrite decide_False by done.
    rewrite app_nil_l, app_nil_r, find_all_below. cbn [contents].
    apply loop_mod_rows. }
  cbn [mbind result_bind].
  rewrite loop_acc.
  rewrite (below_parent_attrs _ (BeautifulSoup []) "td") by done.
  replace (_get_mod_names_loop
             (below (BeautifulSoup []) "td" [table_ [dlc_row "Contact"]]) [])
    with (Ok [] : result (list string)) by (vm_compute; reflexivity).
  cbn. by rewrite app_nil_r.
Qed.

End Programs.

(** *** Extraction on the example documents *)

Lemma get_mod_names_display_names_witness :
  parents_tagged (export ["Alpha"; "CBA_A3"])
  ∧ _get_mod_names (export ["Alpha"; "CBA_A3"])
    = Ok (display_names (export ["Alpha"; "CBA_A3"])).
Proof.
  assert (parents_tagged (export ["Alpha"; "CBA_A3"])) as Hall.
  { vm_compute. repeat constructor; eexists; reflexivity. }
  split; [exact Hall|].
  apply (get_mod_names_display_names (export ["Alpha"; "CBA_A3"])), Hall.
Defined.

Example get_mod_names_export :
  _get_mod_names (export ["Alpha"; "CBA_A3"]) = Ok ["Alpha"; "CBA_A3"].
Proof. vm_compute. reflexivity. Qed.

(** C2 as stated fails on a row without a type tag: its display-name cell has
    a parent that is no [ModContainer], yet the cell is not skipped: the
    lookup raises. *)
Lemma get_mod_names_untagged_row_counterexample :
  _get_mod_names untagged_row_export = Raise (KeyError "data-type")
  ∧ _get_mod_names untagged_row_export
    ≠ Ok (display_names untagged_row_export).
Proof. split; [vm_compute; reflexivity|vm_compute; discriminate]. Qed.

Lemma get_mod_names_untagged_parent_witness :
  Element stray_row stray_cell ∈ find_all stray_row_export "td"
  ∧ type_tag (parent (Element stray_row stray_cell)) = None
  ∧ _get_mod_names stray_row_export = Raise (KeyError "data-type").
Proof.
  assert (Element stray_row stray_cell ∈ find_all stray_row_export "td") as Hin.
  { vm_compute. do 2 right. left. }
  assert (type_tag (parent (Element stray_row stray_cell)) = None) as Hnone.
  { vm_compute. reflexivity. }
  split; [exact Hin|]. split; [exact Hnone|].
  exact (get_mod_names_untagged_parent stray_row_export _ Hin Hnone).
Defined.

Lemma get_mod_names_no_mod_container_witness :
  no_mod_container dlc_export
  ∧ parents_tagged dlc_export
  ∧ _get_mod_names dlc_export = Ok [].
Proof.
  assert (no_mod_container dlc_export) as Hnone.
  { vm_compute. repeat constructor; discriminate. }
  assert (parents_tagged dlc_export) as Hall.
  { vm_compute. repeat constructor; eexists; reflexivity. }
  split; [exact Hnone|]. split; [exact Hall|].
  exact (get_mod_names_no_mod_container dlc_export Hnone Hall).
Defined.

(** C8 as stated fails on a document that has no [ModContainer] element but a
    cell under an untagged parent (here the document itself): the result is
    an error, not the empty list. *)
Lemma get_mod_names_bare_cell_counterexample :
  no_mod_container bare_cell_export
  ∧ _get_mod_names bare_cell_export = Raise (KeyError "data-type")
  ∧ _get_mod_names bare_cell_export ≠ Ok [].
Proof.
  split; [vm_compute; repeat constructor; discriminate|].
  split; [vm_compute; reflexivity|vm_compute; discriminate].
Qed.

(** ** The programs on the example folders *)

Ltac run := vm_compute; reflexivity.

Lemma unused_mod_names_stable_filter_witness :
  unused ["Alpha"; "Beta"; "Gamma"; "Alpha"]
         (dedup (concat [["Alpha"; "Beta"]; ["Beta"]]))
  = filter (fun n => n ∉ ActiveModSet [["Alpha"; "Beta"]; ["Beta"]])
           ["Alpha"; "Beta"; "Gamma"; "Alpha"]
  ∧ heap (unusedmods_main folders_ex ntpath_join
            [export ["Alpha"; "Beta"]; export ["Beta"]]
            (export ["Alpha"; "Beta"; "Gamma"; "Alpha"])
            arma_root_ex initial).2
    = heap (with_names initial
              (filter (fun n => n ∉ ActiveModSet [["Alpha"; "Beta"]; ["Beta"]])
                      ["Alpha"; "Beta"; "Gamma"; "Alpha"])).
Proof.
  apply (unused_mod_names_stable_filter folders_ex ntpath_join
           [export ["Alpha"; "Beta"]; export ["Beta"]]
           (export ["Alpha"; "Beta"; "Gamma"; "Alpha"])
           [["Alpha"; "Beta"]; ["Beta"]]
           ["Alpha"; "Beta"; "Gamma"; "Alpha"] arma_root_ex initial).
  - constructor; [run|]. constructor; [run|]. constructor.
  - run.
Defined.

(** Only [Gamma] is unused: [Alpha] is dropped at both of its places. *)
Example unused_gamma :
  unused ["Alpha"; "Beta"; "Gamma"; "Alpha"]
         (dedup (concat [["Alpha"; "Beta"]; ["Beta"]]))
  = ["Gamma"].
Proof. run. Qed.

(** Repetitions of an unused name are kept, each at its place. *)
Example unused_keeps_repetitions :
  unused ["Gamma"; "Alpha"; "Delta"; "Gamma"] (dedup ["Alpha"; "Alpha"])
  = ["Gamma"; "Delta"; "Gamma"].
Proof. run. Qed.

Lemma fallback_tried_once_witness :
  folders_ex (mod_path ntpath_join arma_root_ex "ACE: Extras/Beta") = None
  ∧ folders_ex (mod_path ntpath_join arma_root_ex (sanitize "ACE: Extras/Beta"))
    = None
  ∧ modpacksize_main folders_ex ntpath_join
      (export ["Alpha"; "ACE: Extras/Beta"; "CBA_A3"]) arma_root_ex initial
    = (Raise (com_error
                (mod_path ntpath_join arma_root_ex (sanitize "ACE: Extras/Beta"))),
       State (heap (with_names initial ["Alpha"; "ACE: Extras/Beta"; "CBA_A3"]))
             (queries initial
                ++ concat (attempts folders_ex ntpath_join arma_root_ex <$> ["Alpha"])
                ++ [mod_path ntpath_join arma_root_ex "ACE: Extras/Beta";
                    mod_path ntpath_join arma_root_ex (sanitize "ACE: Extras/Beta")])).
Proof.
  assert (folders_ex (mod_path ntpath_join arma_root_ex "ACE: Extras/Beta") = None)
    as Hprimary by run.
  assert (folders_ex (mod_path ntpath_join arma_root_ex (sanitize "ACE: Extras/Beta"))
          = None) as Hfallback by run.
  split; [exact Hprimary|]. split; [exact Hfallback|].
  refine (proj1 (proj2 (proj2
            (fallback_tried_once folders_ex ntpath_join arma_root_ex
               "ACE: Extras/Beta" Hprimary)
            Hfallback ["Alpha"] ["CBA_A3"] _)) _ initial _).
  - constructor; [left; eexists; run|constructor].
  - run.
Defined.

Example fallback_failure_queries :
  modpacksize_main folders_ex ntpath_join
    (export ["Alpha"; "ACE: Extras/Beta"; "CBA_A3"]) arma_root_ex initial
  = (Raise (com_error "C:\Arma 3\!Workshop\@ACE- Extras-Beta"),
     State {[ 0%nat := ["Alpha"; "ACE: Extras/Beta"; "CBA_A3"] ]}
           ["C:\Arma 3\!Workshop\@Alpha";
            "C:\Arma 3\!Workshop\@ACE: Extras/Beta";
            "C:\Arma 3\!Workshop\@ACE- Extras-Beta"]).
Proof. run. Qed.

Lemma get_mod_sizes_length_order_witness :
  exists sizes : list Q,
    (_get_mod_sizes folders_ex ntpath_join 0%nat arma_root_ex
       (with_names initial ["Alpha"; "RHS: Escalation"; "CBA_A3"])).1 = Ok sizes
    ∧ length sizes = length ["Alpha"; "RHS: Escalation"; "CBA_A3"]
    ∧ forall (i : nat) mod_name,
        ["Alpha"; "RHS: Escalation"; "CBA_A3"] !! i = Some mod_name ->
        sizes !! i = mod_size folders_ex ntpath_join arma_root_ex mod_name.
Proof.
  apply (get_mod_sizes_length_order folders_ex ntpath_join 0%nat arma_root_ex
           ["Alpha"; "RHS: Escalation"; "CBA_A3"]).
  - run.
  - constructor; [left; eexists; run|].
    constructor; [right; eexists; run|].
    constructor; [left; eexists; run|constructor].
Defined.

Example get_mod_sizes_fallback :
  (_get_mod_sizes folders_ex ntpath_join 0%nat arma_root_ex
     (with_names initial ["Alpha"; "RHS: Escalation"; "CBA_A3"])).1
  = Ok [10; 5; 250]%Q.
Proof. run. Qed.

Lemma print_info_report_witness :
  let names := ["Alpha"; "CBA_A3"] in
  let sizes := [10; 250]%Q in
  length names = length sizes
  ∧ length (table (_print_info names sizes)) = length names
  ∧ (forall (i : nat) name size,
        names !! i = Some name -> sizes !! i = Some size ->
        table (_print_info names sizes) !! i
        = Some (Z.of_nat i + 1, name, fround size 3))
  ∧ total_size_mb (_print_info names sizes) = fround (fsum sizes) 2
  ∧ total_size_gb (_print_info names sizes)
    = fround (fdiv (fround (fsum sizes) 2) (float_of_Z 1024)) 3.
Proof.
  intros names sizes. split; [reflexivity|].
  apply (print_info_report names sizes). reflexivity.
Defined.

(** Two mods of 10 MB and 250 MB: 260 MB, 0.254 GB. *)
Example print_info_alpha_cba :
  _print_info ["Alpha"; "CBA_A3"] [10; 250]%Q
  = Report 260%Q (127 # 500)%Q [(1, "Alpha", 10%Q); (2, "CBA_A3", 250%Q)].
Proof. run. Qed.

(** A size without a name gets no row, and counts in the total. *)
Example print_info_one_name_two_sizes :
  _print_info ["Alpha"] [10; 250]%Q
  = Report 260%Q (127 # 500)%Q [(1, "Alpha", 10%Q)].
Proof. run. Qed.

Lemma names_not_mutated_witness :
  _get_mod_names (export ["Alpha"; "RHS: Escalation"])
  = Ok ["Alpha"; "RHS: Escalation"]
  ∧ exists rep : report Q,
      (modpacksize_main folders_ex ntpath_join
         (export ["Alpha"; "RHS: Escalation"]) arma_root_ex initial).1 = Ok rep
      ∧ shown_names rep = ["Alpha"; "RHS: Escalation"].
Proof.
  assert (_get_mod_names (export ["Alpha"; "RHS: Escalation"])
          = Ok ["Alpha"; "RHS: Escalation"]) as Hsoup by run.
  split; [exact Hsoup|].
  apply (proj1 (proj2 (names_not_mutated folders_ex ntpath_join arma_root_ex))
           _ _ initial Hsoup).
  constructor; [left; eexists; run|].
  constructor; [right; eexists; run|constructor].
Defined.

Example report_shows_display_name :
  (modpacksize_main folders_ex ntpath_join
     (export ["Alpha"; "RHS: Escalation"]) arma_root_ex initial)
  = (Ok (Report 15%Q (3 # 200)%Q
           [(1, "Alpha", 10%Q); (2, "RHS: Escalation", 5%Q)]),
     State {[ 0%nat := ["Alpha"; "RHS: Escalation"] ]}
           ["C:\Arma 3\!Workshop\@Alpha";
            "C:\Arma 3\!Workshop\@RHS: Escalation";
            "C:\Arma 3\!Workshop\@RHS- Escalation"]).
Proof. run. Qed.

(** ** The further properties on the examples *)

Ltac decided := apply (bool_decide_unpack _); vm_compute; reflexivity.

Lemma body_literal_name_first_witness :
  folders_ex (mod_path ntpath_join arma_root_ex "Alpha") = Some (10485760 # 1)%Q
  ∧ mod_size_body folders_ex ntpath_join arma_root_ex "Alpha" [] initial
    = (Ok ([] ++ [megabytes (10485760 # 1)%Q]),
       State (heap initial)
             (queries initial ++ [mod_path ntpath_join arma_root_ex "Alpha"])).
Proof.
  assert (folders_ex (mod_path ntpath_join arma_root_ex "Alpha")
          = Some (10485760 # 1)%Q) as Hprimary by run.
  split; [exact Hprimary|].
  exact (body_literal_name_first folders_ex ntpath_join arma_root_ex "Alpha"
           [] initial _ Hprimary).
Defined.

Lemma body_plain_name_missing_witness :
  mod_size_body folders_ex ntpath_join arma_root_ex "Nope" [] initial
  = (Raise (com_error (mod_path ntpath_join arma_root_ex "Nope")),
     State (heap initial)
           (queries initial ++ [mod_path ntpath_join arma_root_ex "Nope";
                                mod_path ntpath_join arma_root_ex "Nope"])).
Proof.
  apply (body_plain_name_missing folders_ex ntpath_join arma_root_ex "Nope"
           [] initial).
  - decided.
  - decided.
  - run.
Defined.

Lemma get_mod_sizes_success_iff_witness :
  (exists sizes : list Q,
      (_get_mod_sizes folders_ex ntpath_join 0%nat arma_root_ex
         (with_names initial ["Alpha"; "Nope"])).1 = Ok sizes)
  ↔ Forall (folder_exists folders_ex ntpath_join arma_root_ex) ["Alpha"; "Nope"].
Proof.
  apply (get_mod_sizes_success_iff folders_ex ntpath_join 0%nat arma_root_ex
           ["Alpha"; "Nope"] (with_names initial ["Alpha"; "Nope"])).
  run.
Defined.

Lemma get_mod_sizes_queries_witness :
  exists qs,
    queries (_get_mod_sizes folders_ex ntpath_join 0%nat arma_root_ex
               (with_names initial ["Alpha"; "RHS: Escalation"])).2
    = queries (with_names initial ["Alpha"; "RHS: Escalation"]) ++ qs
    ∧ (length qs <= 2 * length ["Alpha"; "RHS: Escalation"])%nat
    ∧ (forall q, q ∈ qs ->
         exists mod_name,
           mod_name ∈ ["Alpha"; "RHS: Escalation"]
           ∧ (q = mod_path ntpath_join arma_root_ex mod_name
              ∨ q = mod_path ntpath_join arma_root_ex (sanitize mod_name)))
    ∧ (forall sizes : list Q,
         (_get_mod_sizes folders_ex ntpath_join 0%nat arma_root_ex
            (with_names initial ["Alpha"; "RHS: Escalation"])).1 = Ok sizes ->
         (length ["Alpha"; "RHS: Escalation"] <= length qs)%nat).
Proof.
  apply (get_mod_sizes_queries folders_ex ntpath_join 0%nat arma_root_ex
           ["Alpha"; "RHS: Escalation"]
           (with_names initial ["Alpha"; "RHS: Escalation"])).
  run.
Defined.

Lemma modpacksize_main_malformed_witness :
  modpacksize_main folders_ex ntpath_join stray_row_export arma_root_ex initial
  = (Raise (KeyError "data-type"), initial).
Proof.
  apply (modpacksize_main_malformed folders_ex ntpath_join stray_row_export
           arma_root_ex initial).
  decided.
Defined.

Lemma unusedmods_main_malformed_witness :
  unusedmods_main folders_ex ntpath_join
    [export ["Alpha"]; untagged_row_export; export ["Beta"]]
    (export ["Alpha"; "CBA_A3"]) arma_root_ex initial
  = (Raise (KeyError "data-type"), initial).
Proof.
  apply (unusedmods_main_malformed folders_ex ntpath_join
           [export ["Alpha"]; untagged_row_export; export ["Beta"]]
           (export ["Alpha"; "CBA_A3"]) arma_root_ex initial).
  decided.
Defined.

Lemma modpacksize_main_report_witness :
  exists sizes : list Q,
    Forall2 (fun mod_name size =>
               mod_size folders_ex ntpath_join arma_root_ex mod_name = Some size)
            (display_names (export ["Alpha"; "RHS: Escalation"])) sizes
    ∧ modpacksize_main folders_ex ntpath_join
        (export ["Alpha"; "RHS: Escalation"]) arma_root_ex initial
      = (Ok (_print_info (display_names (export ["Alpha"; "RHS: Escalation"])) sizes),
         State (heap (with_names initial
                        (display_names (export ["Alpha"; "RHS: Escalation"]))))
               (queries initial
                  ++ concat (attempts folders_ex ntpath_join arma_root_ex
                               <$> display_names (export ["Alpha"; "RHS: Escalation"])))).
Proof.
  apply (modpacksize_main_report folders_ex ntpath_join
           (export ["Alpha"; "RHS: Escalation"]) arma_root_ex initial).
  - vm_compute. repeat constructor; eexists; reflexivity.
  - replace (display_names (export ["Alpha"; "RHS: Escalation"]))
      with ["Alpha"; "RHS: Escalation"] by run.
    constructor; [left; eexists; run|].
    constructor; [right; eexists; run|constructor].
Defined.

Lemma unusedmods_main_queries_witness :
  exists qs,
    queries (unusedmods_main folders_ex ntpath_join
               [export ["Alpha"; "Beta"]]
               (export ["Alpha"; "CBA_A3"; "Beta"]) arma_root_ex initial).2
    = queries initial ++ qs
    ∧ forall q, q ∈ qs ->
        exists mod_name,
          mod_name ∈ ["Alpha"; "CBA_A3"; "Beta"]
          ∧ (mod_name ∉ ActiveModSet [["Alpha"; "Beta"]])
          ∧ (q = mod_path ntpath_join arma_root_ex mod_name
             ∨ q = mod_path ntpath_join arma_root_ex (sanitize mod_name)).
Proof.
  apply (unusedmods_main_queries folders_ex ntpath_join
           [export ["Alpha"; "Beta"]] (export ["Alpha"; "CBA_A3"; "Beta"])
           [["Alpha"; "Beta"]] ["Alpha"; "CBA_A3"; "Beta"] arma_root_ex initial).
  - constructor; [run|constructor].
  - run.
Defined.

Lemma unusedmods_main_all_active_witness :
  unusedmods_main folders_ex ntpath_join
    [export ["Alpha"]; export ["Beta"; "Alpha"]]
    (export ["Beta"; "Alpha"; "Beta"]) arma_root_ex initial
  = (Ok (_print_info [] []), with_names initial []).
Proof.
  apply (unusedmods_main_all_active folders_ex ntpath_join
           [export ["Alpha"]; export ["Beta"; "Alpha"]]
           (export ["Beta"; "Alpha"; "Beta"])
           [["Alpha"]; ["Beta"; "Alpha"]] ["Beta"; "Alpha"; "Beta"]
           arma_root_ex initial).
  - constructor; [run|]. constructor; [run|constructor].
  - run.
  - apply Forall_forall. decided.
Defined.

Lemma unusedmods_main_active_set_witness :
  unusedmods_main folders_ex ntpath_join
    [export ["Alpha"; "Beta"]; export ["Beta"]]
    (export ["Alpha"; "CBA_A3"]) arma_root_ex initial
  = unusedmods_main folders_ex ntpath_join
      [export ["Beta"; "Alpha"]]
      (export ["Alpha"; "CBA_A3"]) arma_root_ex initial.
Proof.
  apply (unusedmods_main_active_set folders_ex ntpath_join
           [export ["Alpha"; "Beta"]; export ["Beta"]]
           [export ["Beta"; "Alpha"]]
           [["Alpha"; "Beta"]; ["Beta"]] [["Beta"; "Alpha"]]).
  - constructor; [run|]. constructor; [run|constructor].
  - constructor; [run|constructor].
  - run.
Defined.

Lemma unusedmods_main_no_active_witness :
  unusedmods_main folders_ex ntpath_join [dlc_export]
    (export ["Alpha"; "CBA_A3"]) arma_root_ex initial
  = modpacksize_main folders_ex ntpath_join
      (export ["Alpha"; "CBA_A3"]) arma_root_ex initial.
Proof.
  apply (unusedmods_main_no_active folders_ex ntpath_join [dlc_export]
           (export ["Alpha"; "CBA_A3"]) [[]]).
  - constructor; [run|constructor].
  - run.
Defined.

Lemma unusedmods_main_report_witness :
  let names :=
    filter (fun n => n ∉ ActiveModSet [["Alpha"; "Beta"]])
           ["Alpha"; "RHS: Escalation"; "Beta"; "CBA_A3"] in
  exists sizes : list Q,
    Forall2 (fun mod_name size =>
               mod_size folders_ex ntpath_join arma_root_ex mod_name = Some size)
            names sizes
    ∧ unusedmods_main folders_ex ntpath_join [export ["Alpha"; "Beta"]]
        (export ["Alpha"; "RHS: Escalation"; "Beta"; "CBA_A3"])
        arma_root_ex initial
      = (Ok (_print_info names sizes),
         State (heap (with_names initial names))
               (queries initial
                  ++ concat (attempts folders_ex ntpath_join arma_root_ex
                               <$> names))).
Proof.
  apply (unusedmods_main_report folders_ex ntpath_join
           [export ["Alpha"; "Beta"]]
           (export ["Alpha"; "RHS: Escalation"; "Beta"; "CBA_A3"])
           [["Alpha"; "Beta"]] ["Alpha"; "RHS: Escalation"; "Beta"; "CBA_A3"]
           arma_root_ex initial).
  - constructor; [run|constructor].
  - run.
  - replace (filter (fun n => n ∉ ActiveModSet [["Alpha"; "Beta"]])
               ["Alpha"; "RHS: Escalation"; "Beta"; "CBA_A3"])
      with ["RHS: Escalation"; "CBA_A3"] by run.
    constructor; [right; eexists; run|].
    constructor; [left; eexists; run|constructor].
Defined.

(** Beta has no folder, but it is active and never looked up. *)
Example unused_report_skips_active :
  unusedmods_main folders_ex ntpath_join [export ["Alpha"; "Beta"]]
    (export ["Alpha"; "RHS: Escalation"; "Beta"; "CBA_A3"]) arma_root_ex initial
  = (Ok (Report 255%Q (249 # 1000)%Q
           [(1, "RHS: Escalation", 5%Q); (2, "CBA_A3", 250%Q)]),
     State {[ 0%nat := ["RHS: Escalation"; "CBA_A3"] ]}
           ["C:\Arma 3\!Workshop\@RHS: Escalation";
            "C:\Arma 3\!Workshop\@RHS- Escalation";
            "C:\Arma 3\!Workshop\@CBA_A3"]).
Proof. run. Qed.
